(** * PowerSchool notifier: the snapshot diff, the term window and the
      record projection of [main.go], with the properties of its
      specification.

    Go values are represented as follows.
    - [int64] identifiers are integers [Z]; the program only stores and
      compares them.
    - [string] is [string] (a sequence of bytes); [fmt.Sprintf] with [%s]
      verbs is concatenation.
    - [time.Time] is the integer position of the instant on the time line, in
      nanoseconds since the Unix epoch; [Before] and [After] are [<] and [>].
    - [map[int64]V] is [gmap Z V].  Go leaves the order of [range] over a map
      unspecified, so every traversal takes its order from a [MapOrder].
    - console output, webhook posts and file writes are collected in a list of
      [Action]s, in program order.
    - a backup file is what decoding it gives: a collection, or an error.  A
      collection that is written comes back with its strings coerced to valid
      UTF-8, as [encoding/json] writes them. *)

From stdpp Require Import base strings list gmap.
From Stdlib Require Import Ascii ZArith Lia.

Open Scope Z_scope.

(** ** Data model *)

Record Class := mkClass {
  Class_ID : Z;
  Class_Name : string;
  Class_Grade : string
}.

Record Assignment := mkAssignment {
  Assignment_ID : Z;
  Assignment_Name : string;
  Assignment_Grade : string;
  Assignment_ClassID : Z;
  Assignment_ClassName : string
}.

Record WebhookMessage := mkWebhookMessage { Content : string }.

Global Instance Class_eq_dec : EqDecision Class.
Proof. solve_decision. Defined.

Global Instance Assignment_eq_dec : EqDecision Assignment.
Proof. solve_decision. Defined.

Global Instance WebhookMessage_eq_dec : EqDecision WebhookMessage.
Proof. solve_decision. Defined.

Definition discordWebhookURL : string := "<YOUR_DISCORD_WEBHOOK_URL>".
Definition backupClassesFile : string := "backup_classes.json".
Definition backupAssignmentsFile : string := "backup_assignments.json".

(** A Go [(value, error)] result; an error is known by its text. *)
Inductive Result (A : Type) : Type :=
| Ok (a : A)
| Err (msg : string).
Arguments Ok {A} a.
Arguments Err {A} msg.

(** ** Observable effects *)

Inductive Action : Type :=
| LogInfo (msg : string)
| LogWarning (msg : string)
| LogSuccess (msg : string)
| LogError (msg : string)
| HttpPost (url : string) (payload : WebhookMessage)
| WriteFile (filename : string).

Global Instance Action_eq_dec : EqDecision Action.
Proof. solve_decision. Defined.

Definition is_post (a : Action) : bool :=
  match a with HttpPost _ _ => true | _ => false end.

Definition is_write (a : Action) : bool :=
  match a with WriteFile _ => true | _ => false end.

Definition newline : string := String "010"%char EmptyString.

(** [sendDiscordNotification]: nothing for the empty message; otherwise one
    POST of the payload, then a line that depends on the answer of the
    transport ([http_Post] gives the error of the call, if any). *)
Definition sendDiscordNotification (http_Post : WebhookMessage → option string)
    (message : string) : list Action :=
  if bool_decide (message = "") then []
  else
    let payload := {| Content := message |} in
    match http_Post payload with
    | Some err => [HttpPost discordWebhookURL payload;
                   LogError ("Error sending webhook: " +:+ err)]
    | None => [HttpPost discordWebhookURL payload;
               LogSuccess "Discord notification sent!"]
    end.

(** ** The change descriptions ([fmt.Sprintf] calls of the two diffs) *)

Definition msg_assignment_changed (name className oldGrade newGrade : string) : string :=
  "Grade changed for assignment '" +:+ name +:+ "' in class " +:+ className
    +:+ ": " +:+ oldGrade +:+ " -> " +:+ newGrade.

Definition msg_assignment_added (name className grade : string) : string :=
  "New assignment added: '" +:+ name +:+ "' in class " +:+ className
    +:+ " with grade " +:+ grade.

Definition msg_assignment_removed (name className : string) : string :=
  "Assignment removed: '" +:+ name +:+ "' from class " +:+ className.

Definition msg_class_changed (name oldGrade newGrade : string) : string :=
  "Grade changed for " +:+ name +:+ ": " +:+ oldGrade +:+ " -> " +:+ newGrade.

Definition msg_class_added (name grade : string) : string :=
  "New class added: " +:+ name +:+ " with grade " +:+ grade.

(** ** Traversal order of a Go map *)

(** One [range] over a map visits every entry once, in an order the language
    does not fix: a [MapOrder] is one such choice for every map. *)
Record MapOrder := mkMapOrder {
  range_map : gmap Z Assignment → list (Z * Assignment);
  range_map_perm : ∀ m, range_map m ≡ₚ map_to_list m
}.

Definition order_forward : MapOrder :=
  {| range_map := map_to_list; range_map_perm := λ m, reflexivity _ |}.

Definition order_backward : MapOrder :=
  {| range_map := λ m, reverse (map_to_list m);
     range_map_perm := λ m, reverse_Permutation (map_to_list m) |}.

(** ** Diff of the assignments: [compareAssignmentsAndNotifyChanges] *)

(** First loop: the old assignments indexed by id, a later record replacing
    an earlier one with the same id. *)
Definition oldAssignmentMap (oldAssignments : list Assignment) : gmap Z Assignment :=
  foldl (λ m assignment, <[Assignment_ID assignment := assignment]> m) ∅ oldAssignments.

(** Body of the second loop, on the pair of the index and the changes. *)
Definition assignment_step (st : gmap Z Assignment * list string)
    (newAssignment : Assignment) : gmap Z Assignment * list string :=
  let '(m, changes) := st in
  match m !! Assignment_ID newAssignment with
  | Some oldAssignment =>
      (delete (Assignment_ID newAssignment) m,
       if bool_decide (Assignment_Grade oldAssignment ≠ Assignment_Grade newAssignment)
       then changes ++ [msg_assignment_changed (Assignment_Name newAssignment)
                          (Assignment_ClassName newAssignment)
                          (Assignment_Grade oldAssignment)
                          (Assignment_Grade newAssignment)]
       else changes)
  | None =>
      (m, changes ++ [msg_assignment_added (Assignment_Name newAssignment)
                        (Assignment_ClassName newAssignment)
                        (Assignment_Grade newAssignment)])
  end.

(** Body of the third loop, over what is left of the index. *)
Definition removal_step (changes : list string) (entry : Z * Assignment) : list string :=
  changes ++ [msg_assignment_removed (Assignment_Name entry.2)
                (Assignment_ClassName entry.2)].

(** The value of [changes] when the three loops are over. *)
Definition compareAssignments_changes (ord : MapOrder)
    (oldAssignments newAssignments : list Assignment) : list string :=
  let '(m, changes) :=
    foldl assignment_step (oldAssignmentMap oldAssignments, []) newAssignments in
  foldl removal_step changes (range_map ord m).

(** The last statement: one notification of the joined changes, or a log line. *)
Definition notify_or_log (http_Post : WebhookMessage → option string)
    (nothing : string) (changes : list string) : list Action :=
  if bool_decide (0 < length changes)%nat
  then sendDiscordNotification http_Post (String.concat newline changes)
  else [LogInfo nothing].

Definition compareAssignmentsAndNotifyChanges (ord : MapOrder)
    (http_Post : WebhookMessage → option string)
    (oldAssignments newAssignments : list Assignment) : list Action :=
  notify_or_log http_Post "No changes in Assignments."
    (compareAssignments_changes ord oldAssignments newAssignments).

(** ** Diff of the classes: [compareGradesAndNotifyChanges] *)

Definition oldGrades (oldClasses : list Class) : gmap Z string :=
  foldl (λ m class, <[Class_ID class := Class_Grade class]> m) ∅ oldClasses.

Definition class_step (grades : gmap Z string) (changes : list string)
    (class : Class) : list string :=
  match grades !! Class_ID class with
  | Some oldGrade =>
      if bool_decide (oldGrade ≠ Class_Grade class)
      then changes ++ [msg_class_changed (Class_Name class) oldGrade (Class_Grade class)]
      else changes
  | None =>
      changes ++ [msg_class_added (Class_Name class) (Class_Grade class)]
  end.

Definition compareGrades_changes (oldClasses newClasses : list Class) : list string :=
  foldl (class_step (oldGrades oldClasses)) [] newClasses.

Definition compareGradesAndNotifyChanges
    (http_Post : WebhookMessage → option string)
    (oldClasses newClasses : list Class) : list Action :=
  notify_or_log http_Post "No changes in Classes."
    (compareGrades_changes oldClasses newClasses).

(** ** Events behind the change descriptions

    Each description the diffs append tells one event about one record.  The
    event keeps the kind, the id of the record it is about (which the text
    does not show) and the fields the text is built from. *)

Inductive Kind : Type := GradeChanged | Added | Removed.

Global Instance Kind_eq_dec : EqDecision Kind.
Proof. solve_decision. Defined.

Record Event := mkEvent {
  ev_kind : Kind;
  ev_id : Z;
  ev_name : string;
  ev_class : string;      (* class context; empty for a class event *)
  ev_old : string;        (* old grade, for a change of grade *)
  ev_new : string         (* new grade, for a change or an addition *)
}.

Global Instance Event_eq_dec : EqDecision Event.
Proof. solve_decision. Defined.

(** Text of an event of the assignment diff. *)
Definition assignment_msg (e : Event) : string :=
  match ev_kind e with
  | GradeChanged => msg_assignment_changed (ev_name e) (ev_class e) (ev_old e) (ev_new e)
  | Added => msg_assignment_added (ev_name e) (ev_class e) (ev_new e)
  | Removed => msg_assignment_removed (ev_name e) (ev_class e)
  end.

Definition changed_of (o n : Assignment) : Event :=
  mkEvent GradeChanged (Assignment_ID n) (Assignment_Name n)
    (Assignment_ClassName n) (Assignment_Grade o) (Assignment_Grade n).

Definition added_of (n : Assignment) : Event :=
  mkEvent Added (Assignment_ID n) (Assignment_Name n)
    (Assignment_ClassName n) "" (Assignment_Grade n).

Definition removed_of (o : Assignment) : Event :=
  mkEvent Removed (Assignment_ID o) (Assignment_Name o)
    (Assignment_ClassName o) "" "".

(** Events of the second loop, started on the index [m]. *)
Fixpoint assignment_scan (m : gmap Z Assignment) (new : list Assignment) : list Event :=
  match new with
  | [] => []
  | n :: rest =>
      match m !! Assignment_ID n with
      | Some o =>
          (if bool_decide (Assignment_Grade o ≠ Assignment_Grade n)
           then [changed_of o n] else [])
          ++ assignment_scan (delete (Assignment_ID n) m) rest
      | None => added_of n :: assignment_scan m rest
      end
  end.

(** The event of one new record, seen against the index [m]. *)
Definition assignment_event (m : gmap Z Assignment) (n : Assignment) : list Event :=
  match m !! Assignment_ID n with
  | Some o =>
      if bool_decide (Assignment_Grade o ≠ Assignment_Grade n) then [changed_of o n] else []
  | None => [added_of n]
  end.

(** The index after the second loop. *)
Definition remaining (m : gmap Z Assignment) (new : list Assignment) : gmap Z Assignment :=
  foldl (λ m n, delete (Assignment_ID n) m) m new.

(** Events of the third loop. *)
Definition assignment_removals (ord : MapOrder) (m : gmap Z Assignment) : list Event :=
  map (λ entry, removed_of entry.2) (range_map ord m).

Definition assignment_events (ord : MapOrder) (old new : list Assignment) : list Event :=
  assignment_scan (oldAssignmentMap old) new
  ++ assignment_removals ord (remaining (oldAssignmentMap old) new).

(** Events of the class diff; it has a text for two kinds only. *)
Definition class_changed_of (oldGrade : string) (c : Class) : Event :=
  mkEvent GradeChanged (Class_ID c) (Class_Name c) "" oldGrade (Class_Grade c).

Definition class_added_of (c : Class) : Event :=
  mkEvent Added (Class_ID c) (Class_Name c) "" "" (Class_Grade c).

Definition class_msg (e : Event) : option string :=
  match ev_kind e with
  | GradeChanged => Some (msg_class_changed (ev_name e) (ev_old e) (ev_new e))
  | Added => Some (msg_class_added (ev_name e) (ev_new e))
  | Removed => None
  end.

Definition class_event (grades : gmap Z string) (c : Class) : list Event :=
  match grades !! Class_ID c with
  | Some oldGrade =>
      if bool_decide (oldGrade ≠ Class_Grade c) then [class_changed_of oldGrade c] else []
  | None => [class_added_of c]
  end.

Definition class_events (old new : list Class) : list Event :=
  flat_map (class_event (oldGrades old)) new.

(** Events of one kind, and events about one id. *)
Definition of_kind (k : Kind) (evs : list Event) : list Event :=
  filter (λ e, ev_kind e = k) evs.

Definition about (i : Z) (evs : list Event) : list Event :=
  filter (λ e, ev_id e = i) evs.

(** The last record of a list with a given id. *)
Definition last_assignment (i : Z) (l : list Assignment) : option Assignment :=
  last (filter (λ a, Assignment_ID a = i) l).

Definition last_class (i : Z) (l : list Class) : option Class :=
  last (filter (λ c, Class_ID c = i) l).

(** Kind of a change description, read from the start of its text. *)
Definition msg_kind (s : string) : option Kind :=
  if String.prefix "Grade changed for " s then Some GradeChanged
  else if String.prefix "New assignment added: '" s then Some Added
  else if String.prefix "New class added: " s then Some Added
  else if String.prefix "Assignment removed: '" s then Some Removed
  else None.

(** ** The student record of the upstream client *)

(** Modelled from the spec: the declarations of package [powerschool] are
    not part of the sources at hand.  The records below hold the fields of
    the student record listed in section 6 of the specification, under the
    names [fetchAndCompare] reads them by. *)
Record Section_ := mkSection {
  Section_Id : Z;
  SchoolCourseTitle : string
}.

Record ReportingTerm := mkReportingTerm {
  ReportingTerm_Id : Z;
  Title : string;
  StartDate : Z;
  EndDate : Z
}.

Record FinalGrade := mkFinalGrade {
  FinalGrade_Sectionid : Z;
  ReportingTermId : Z;
  FinalGrade_Grade : string
}.

Record AssignmentScore := mkAssignmentScore {
  AssignmentId : Z;
  Score : string
}.

Record RawAssignment := mkRawAssignment {
  RawAssignment_Id : Z;
  RawAssignment_Name : string;
  RawAssignment_Sectionid : Z;
  DueDate : Z
}.

Record Student := mkStudent {
  Sections : list Section_;
  ReportingTerms : list ReportingTerm;
  FinalGrades : list FinalGrade;
  AssignmentScores : list AssignmentScore;
  Assignments : list RawAssignment
}.

Global Instance ReportingTerm_eq_dec : EqDecision ReportingTerm.
Proof. solve_decision. Defined.

Global Instance RawAssignment_eq_dec : EqDecision RawAssignment.
Proof. solve_decision. Defined.

Global Instance AssignmentScore_eq_dec : EqDecision AssignmentScore.
Proof. solve_decision. Defined.

(** ** Term window *)

(** [time.Parse("2006-01-02", "2100-01-01")] and
    [time.Parse("2006-01-02", "2000-01-01")]: midnight UTC of the two days. *)
Definition nanosecond_per_second : Z := 1000000000.
Definition date_2100_01_01 : Z := 4102444800 * nanosecond_per_second.
Definition date_2000_01_01 : Z := 946684800 * nanosecond_per_second.

(** State of the loop over the reporting terms.  [ticks] counts the calls of
    [time.Now] made so far: the k-th call returns [clock k]. *)
Record TermState := mkTermState {
  ticks : nat;
  allowedTerms : gmap Z bool;
  termBeginDate : Z;
  termDueDate : Z
}.

Definition term_init : TermState :=
  mkTermState 0 ∅ date_2100_01_01 date_2000_01_01.

(** Body of the loop.  The condition reads the clock once for the start date
    and, when that test holds, once more for the end date. *)
Definition term_step (clock : nat → Z) (st : TermState)
    (reportingTerm : ReportingTerm) : TermState :=
  if bool_decide (StartDate reportingTerm < clock (ticks st)) then
    if bool_decide (clock (S (ticks st)) < EndDate reportingTerm) then
      if String.prefix "Q" (Title reportingTerm) then
        {| ticks := S (S (ticks st));
           allowedTerms := <[ReportingTerm_Id reportingTerm := true]> (allowedTerms st);
           termBeginDate :=
             if bool_decide (StartDate reportingTerm < termBeginDate st)
             then StartDate reportingTerm else termBeginDate st;
           termDueDate :=
             if bool_decide (termDueDate st < EndDate reportingTerm)
             then EndDate reportingTerm else termDueDate st |}
      else
        mkTermState (S (S (ticks st))) (allowedTerms st) (termBeginDate st) (termDueDate st)
    else
      mkTermState (S (S (ticks st))) (allowedTerms st) (termBeginDate st) (termDueDate st)
  else
    mkTermState (S (ticks st)) (allowedTerms st) (termBeginDate st) (termDueDate st).

Definition term_window (clock : nat → Z) (terms : list ReportingTerm) : TermState :=
  foldl (term_step clock) term_init terms.

(** A clock that shows the same instant at every reading. *)
Definition frozen (now : Z) : nat → Z := λ _, now.

(** The terms the selection policy calls active at [now]. *)
Definition active (now : Z) (t : ReportingTerm) : bool :=
  bool_decide (StartDate t < now) && bool_decide (now < EndDate t)
  && String.prefix "Q" (Title t).

Definition active_terms (now : Z) (terms : list ReportingTerm) : list ReportingTerm :=
  filter (λ t, active now t = true) terms.

(** Least and greatest element of a list that starts with [x]. *)
Definition minimum (x : Z) (l : list Z) : Z := foldr Z.min x l.
Definition maximum (x : Z) (l : list Z) : Z := foldr Z.max x l.

(** ** Record projection *)

Definition idMap (sections : list Section_) : gmap Z string :=
  foldl (λ m course, <[Section_Id course := SchoolCourseTitle course]> m) ∅ sections.

(** Reading a Go map at a key it does not hold gives the zero value. *)
Definition is_allowed (allowed : gmap Z bool) (id : Z) : bool :=
  default false (allowed !! id).

Definition title_of (ids : gmap Z string) (id : Z) : string :=
  default "" (ids !! id).

Definition newClasses_of (allowed : gmap Z bool) (ids : gmap Z string)
    (finalGrades : list FinalGrade) : list Class :=
  foldl (λ newClasses finalGrade,
           if is_allowed allowed (ReportingTermId finalGrade)
           then newClasses ++ [ {| Class_ID := FinalGrade_Sectionid finalGrade;
                                   Class_Name := title_of ids (FinalGrade_Sectionid finalGrade);
                                   Class_Grade := FinalGrade_Grade finalGrade |} ]
           else newClasses)
        [] finalGrades.

Definition assignmentScoreMap (scores : list AssignmentScore) : gmap Z string :=
  foldl (λ m assignment,
           if bool_decide (Score assignment ≠ "")
           then <[AssignmentId assignment := Score assignment +:+ "%"]> m
           else m)
        ∅ scores.

(** The inner loop: name of the first class with the section id. *)
Fixpoint className_of (newClasses : list Class) (sectionid : Z) : string :=
  match newClasses with
  | [] => ""
  | class :: rest =>
      if bool_decide (Class_ID class = sectionid) then Class_Name class
      else className_of rest sectionid
  end.

Definition in_window (termBegin termDue : Z) (assignment : RawAssignment) : bool :=
  bool_decide (DueDate assignment < termDue) && bool_decide (termBegin < DueDate assignment).

Definition project_assignment (scoreMap : gmap Z string) (newClasses : list Class)
    (assignment : RawAssignment) : Assignment :=
  {| Assignment_ID := RawAssignment_Id assignment;
     Assignment_Name := RawAssignment_Name assignment;
     Assignment_Grade := default "" (scoreMap !! RawAssignment_Id assignment);
     Assignment_ClassID := RawAssignment_Sectionid assignment;
     Assignment_ClassName := className_of newClasses (RawAssignment_Sectionid assignment) |}.

Definition newAssignments_of (termBegin termDue : Z) (scoreMap : gmap Z string)
    (newClasses : list Class) (assignments : list RawAssignment) : list Assignment :=
  foldl (λ newAssignments assignment,
           if in_window termBegin termDue assignment then
             match scoreMap !! RawAssignment_Id assignment with
             | None => newAssignments
             | Some _ =>
                 newAssignments ++ [project_assignment scoreMap newClasses assignment]
             end
           else newAssignments)
        [] assignments.

(** The two collections built from a student record, with the clock [clock]. *)
Definition projected_classes (clock : nat → Z) (student : Student) : list Class :=
  newClasses_of (allowedTerms (term_window clock (ReportingTerms student)))
    (idMap (Sections student)) (FinalGrades student).

Definition projected_assignments (clock : nat → Z) (student : Student) : list Assignment :=
  let st := term_window clock (ReportingTerms student) in
  newAssignments_of (termBeginDate st) (termDueDate st)
    (assignmentScoreMap (AssignmentScores student))
    (projected_classes clock student) (Assignments student).

(** ** Snapshot files and the cycle *)

(** What decoding each backup file gives: the stored collection, or the error
    of opening, reading or decoding it. *)
Record Disk := mkDisk {
  backup_classes : Result (list Class);
  backup_assignments : Result (list Assignment)
}.

Definition loadBackupDataClasses (file : Result (list Class)) : list Class * option string :=
  match file with
  | Ok classes => (classes, None)
  | Err msg => ([], Some msg)
  end.

Definition loadBackupDataAssignments (file : Result (list Assignment))
    : list Assignment * option string :=
  match file with
  | Ok assignments => (assignments, None)
  | Err msg => ([], Some msg)
  end.

(** Answer of [os.WriteFile]: success, or an error that leaves the file in
    some state the program has no say in. *)
Inductive WriteOutcome (A : Type) : Type :=
| Written
| WriteFailed (err : string) (residue : Result A).
Arguments Written {A}.
Arguments WriteFailed {A} err residue.

(** [json.MarshalIndent] writes every string coerced to valid UTF-8.  It goes
    through the bytes of the string: a byte below 0x80 is kept, and so is a
    well-formed encoding of two, three or four bytes (as [utf8.DecodeRune]
    accepts them: no overlong form, no surrogate, nothing above U+10FFFF);
    any other byte is replaced, alone, by the replacement character U+FFFD.
    Integers are written as they are, and [json.Unmarshal] reads the written
    text back unchanged.  So a record comes back from a backup file with its
    strings passed through [to_valid_utf8]. *)
Definition byte_value (b : ascii) : Z := Z.of_N (N_of_ascii b).

(** U+FFFD in UTF-8: EF BF BD. *)
Definition replacement_character : string :=
  String "239" (String "191" (String "189" EmptyString)).

(** For a first byte from 0x80 on: the length of the encoding it starts and
    the range allowed for the second byte; [None] when no encoding starts
    with it. *)
Definition lead_byte (b : Z) : option (nat * (Z * Z)) :=
  if bool_decide (b < 194) then None
  else if bool_decide (b ≤ 223) then Some (2%nat, (128, 191))
  else if bool_decide (b = 224) then Some (3%nat, (160, 191))
  else if bool_decide (b ≤ 236) then Some (3%nat, (128, 191))
  else if bool_decide (b = 237) then Some (3%nat, (128, 159))
  else if bool_decide (b ≤ 239) then Some (3%nat, (128, 191))
  else if bool_decide (b = 240) then Some (4%nat, (144, 191))
  else if bool_decide (b ≤ 243) then Some (4%nat, (128, 191))
  else if bool_decide (b = 244) then Some (4%nat, (128, 143))
  else None.

Definition between (lo hi : Z) (b : ascii) : bool :=
  bool_decide (lo ≤ byte_value b ≤ hi).

Fixpoint to_valid_utf8 (s : string) : string :=
  match s with
  | EmptyString => EmptyString
  | String b0 s1 =>
      let invalid := replacement_character +:+ to_valid_utf8 s1 in
      if bool_decide (byte_value b0 < 128) then String b0 (to_valid_utf8 s1)
      else
        match lead_byte (byte_value b0), s1 with
        | Some (size, (lo, hi)), String b1 s2 =>
            if between lo hi b1 then
              match size, s2 with
              | 2%nat, _ => String b0 (String b1 (to_valid_utf8 s2))
              | _, String b2 s3 =>
                  if between 128 191 b2 then
                    match size, s3 with
                    | 3%nat, _ => String b0 (String b1 (String b2 (to_valid_utf8 s3)))
                    | _, String b3 s4 =>
                        if between 128 191 b3
                        then String b0 (String b1 (String b2 (String b3 (to_valid_utf8 s4))))
                        else invalid
                    | _, EmptyString => invalid
                    end
                  else invalid
              | _, EmptyString => invalid
              end
            else invalid
        | _, _ => invalid
        end
  end.

(** Strings made of well-formed encodings only. *)
Inductive valid_utf8 : string → Prop :=
| valid_empty : valid_utf8 EmptyString
| valid_one (b0 : ascii) (s : string) :
    byte_value b0 < 128 → valid_utf8 s → valid_utf8 (String b0 s)
| valid_two (b0 b1 : ascii) (s : string) (lo hi : Z) :
    128 ≤ byte_value b0 →
    lead_byte (byte_value b0) = Some (2%nat, (lo, hi)) →
    between lo hi b1 = true →
    valid_utf8 s → valid_utf8 (String b0 (String b1 s))
| valid_three (b0 b1 b2 : ascii) (s : string) (lo hi : Z) :
    128 ≤ byte_value b0 →
    lead_byte (byte_value b0) = Some (3%nat, (lo, hi)) →
    between lo hi b1 = true → between 128 191 b2 = true →
    valid_utf8 s → valid_utf8 (String b0 (String b1 (String b2 s)))
| valid_four (b0 b1 b2 b3 : ascii) (s : string) (lo hi : Z) :
    128 ≤ byte_value b0 →
    lead_byte (byte_value b0) = Some (4%nat, (lo, hi)) →
    between lo hi b1 = true → between 128 191 b2 = true → between 128 191 b3 = true →
    valid_utf8 s → valid_utf8 (String b0 (String b1 (String b2 (String b3 s)))).

(** A record as it is read back after having been written. *)
Definition json_class (c : Class) : Class :=
  {| Class_ID := Class_ID c;
     Class_Name := to_valid_utf8 (Class_Name c);
     Class_Grade := to_valid_utf8 (Class_Grade c) |}.

Definition json_assignment (a : Assignment) : Assignment :=
  {| Assignment_ID := Assignment_ID a;
     Assignment_Name := to_valid_utf8 (Assignment_Name a);
     Assignment_Grade := to_valid_utf8 (Assignment_Grade a);
     Assignment_ClassID := Assignment_ClassID a;
     Assignment_ClassName := to_valid_utf8 (Assignment_ClassName a) |}.

Definition saveBackupDataClasses (outcome : WriteOutcome (list Class))
    (classes : list Class) : Result (list Class) * option string :=
  match outcome with
  | Written => (Ok (map json_class classes), None)
  | WriteFailed err residue => (residue, Some err)
  end.

Definition saveBackupDataAssignments (outcome : WriteOutcome (list Assignment))
    (assignments : list Assignment) : Result (list Assignment) * option string :=
  match outcome with
  | Written => (Ok (map json_assignment assignments), None)
  | WriteFailed err residue => (residue, Some err)
  end.

(** Everything outside the program that one cycle depends on. *)
Record World := mkWorld {
  GetStudent : Result Student;
  clock_of : nat → Z;
  map_order : MapOrder;
  http_Post : WebhookMessage → option string;
  write_classes : WriteOutcome (list Class);
  write_assignments : WriteOutcome (list Assignment)
}.

Definition warn_if (err : option string) (msg : string) : list Action :=
  match err with Some _ => [LogWarning msg] | None => [] end.

Definition error_if (err : option string) (msg : string) : list Action :=
  match err with Some e => [LogError (msg +:+ e)] | None => [] end.

Definition fetchAndCompare (w : World) (disk : Disk) : Disk * list Action :=
  let '(oldClasses, err1) := loadBackupDataClasses (backup_classes disk) in
  let '(oldAssignments, err2) := loadBackupDataAssignments (backup_assignments disk) in
  let loaded :=
    [LogInfo "Starting data fetch and comparison..."]
    ++ warn_if err1 "Could not load old classes, possibly first run."
    ++ warn_if err2 "Could not load old assignments, possibly first run." in
  match GetStudent w with
  | Err err => (disk, loaded ++ [LogError ("Failed to get student data: " +:+ err)])
  | Ok student =>
      let newClasses := projected_classes (clock_of w) student in
      let newAssignments := projected_assignments (clock_of w) student in
      let compared :=
        compareGradesAndNotifyChanges (http_Post w) oldClasses newClasses
        ++ compareAssignmentsAndNotifyChanges (map_order w) (http_Post w)
             oldAssignments newAssignments in
      let '(file1, werr1) := saveBackupDataClasses (write_classes w) newClasses in
      let '(file2, werr2) := saveBackupDataAssignments (write_assignments w) newAssignments in
      (mkDisk file1 file2,
       loaded ++ compared
       ++ [WriteFile backupClassesFile]
       ++ error_if werr1 "Failed to backup new classes data: "
       ++ [WriteFile backupAssignmentsFile]
       ++ error_if werr2 "Failed to backup new assignments data: "
       ++ [LogInfo "Data fetch and comparison completed."])
  end.

(** ** Notions used in the statements *)

(** Every key of the index is the id of the record stored under it. *)
Definition keyed (m : gmap Z Assignment) : Prop :=
  ∀ k o, m !! k = Some o → Assignment_ID o = k.

(** What the loop over the raw assignments keeps. *)
Definition projectable (termBegin termDue : Z) (scoreMap : gmap Z string)
    (assignment : RawAssignment) : Prop :=
  termBegin < DueDate assignment ∧ DueDate assignment < termDue
  ∧ is_Some (scoreMap !! RawAssignment_Id assignment).

Global Instance projectable_dec termBegin termDue scoreMap assignment :
  Decision (projectable termBegin termDue scoreMap assignment).
Proof. unfold projectable. apply _. Defined.

(** A score that counts for the assignment [i]: one that is not empty. *)
Definition scored (i : Z) (s : AssignmentScore) : Prop :=
  AssignmentId s = i ∧ Score s ≠ "".

Global Instance scored_dec i s : Decision (scored i s).
Proof. unfold scored. apply _. Defined.

(** The message the specification asks for, given the changes of one kind:
    none without changes, else one with the changes joined by newlines. *)
Definition message_for (changes : list string) : list Action :=
  match changes with
  | [] => []
  | _ => [HttpPost discordWebhookURL {| Content := String.concat newline changes |}]
  end.

(** The line after a POST, by the answer of the transport. *)
Definition post_outcome (http_Post : WebhookMessage → option string)
    (payload : WebhookMessage) : Action :=
  match http_Post payload with
  | Some err => LogError ("Error sending webhook: " +:+ err)
  | None => LogSuccess "Discord notification sent!"
  end.

(** ** Sample records *)

Definition hw1 : Assignment := mkAssignment 1 "HW1" "90%" 10 "Math".
Definition hw2 : Assignment := mkAssignment 2 "HW2" "80%" 10 "Math".
Definition hw3 : Assignment := mkAssignment 3 "HW3" "70%" 11 "Art".
Definition math_B : Class := mkClass 10 "Math" "B".
Definition art_C : Class := mkClass 11 "Art" "C".

(** Instants of the examples, in nanoseconds: midnight UTC of a day given by
    its count of seconds since the epoch. *)
Definition day_2024_01_01 : Z := 1704067200 * nanosecond_per_second.
Definition day_2024_02_01 : Z := 1706745600 * nanosecond_per_second.
Definition day_2024_02_15 : Z := 1707955200 * nanosecond_per_second.
Definition day_2024_03_15 : Z := 1710460800 * nanosecond_per_second.
Definition day_2024_06_01 : Z := 1717200000 * nanosecond_per_second.
Definition day_2100_01_04 : Z := 4102704000 * nanosecond_per_second.
Definition day_2100_02_01 : Z := 4105123200 * nanosecond_per_second.
Definition day_2100_03_20 : Z := 4109184000 * nanosecond_per_second.

Definition term_Q1 : ReportingTerm := mkReportingTerm 1 "Q1" day_2024_01_01 day_2024_03_15.
Definition term_S1 : ReportingTerm := mkReportingTerm 2 "S1" day_2024_01_01 day_2024_06_01.
Definition term_Q1_2100 : ReportingTerm :=
  mkReportingTerm 3 "Q1" day_2100_01_04 day_2100_03_20.

Definition sample_student : Student :=
  {| Sections := [mkSection 10 "Math"; mkSection 11 "Art"];
     ReportingTerms := [term_Q1; term_S1];
     FinalGrades := [mkFinalGrade 10 1 "B"; mkFinalGrade 11 2 "A"];
     AssignmentScores := [mkAssignmentScore 1 "90"; mkAssignmentScore 2 "";
                          mkAssignmentScore 3 "70"];
     Assignments := [mkRawAssignment 1 "HW1" 10 day_2024_02_15;
                     mkRawAssignment 2 "HW2" 10 day_2024_02_15;
                     mkRawAssignment 3 "HW3" 11 day_2024_06_01] |}.

Definition sample_world : World :=
  mkWorld (Ok sample_student) (frozen day_2024_02_01) order_forward (λ _, None)
    Written Written.

Definition offline_world : World :=
  mkWorld (Err "connection refused") (frozen day_2024_02_01) order_forward (λ _, None)
    Written Written.

Definition sample_disk : Disk :=
  mkDisk (Err "open backup_classes.json: no such file or directory") (Ok [hw1; hw2]).

(** ** The driver: [main] *)

(** [main] runs one cycle at once and one more at every tick of its ticker,
    for ever, each cycle ending before the next begins.  [main_cycles] is that
    run up to a number of cycles, every cycle with the world it meets. *)
Fixpoint main_cycles (worlds : list World) (disk : Disk) : Disk * list Action :=
  match worlds with
  | [] => (disk, [])
  | w :: rest =>
      let '(disk1, actions1) := fetchAndCompare w disk in
      let '(disk2, actions2) := main_cycles rest disk1 in
      (disk2, actions1 ++ actions2)
  end.

(** ** Further notions used in the statements *)

(** The class record that the loop over the final grades appends. *)
Definition class_of (ids : gmap Z string) (finalGrade : FinalGrade) : Class :=
  {| Class_ID := FinalGrade_Sectionid finalGrade;
     Class_Name := title_of ids (FinalGrade_Sectionid finalGrade);
     Class_Grade := FinalGrade_Grade finalGrade |}.

(** The final grades that the loop keeps. *)
Definition graded_in (allowed : gmap Z bool) (finalGrade : FinalGrade) : Prop :=
  is_allowed allowed (ReportingTermId finalGrade) = true.

Global Instance graded_in_dec allowed finalGrade : Decision (graded_in allowed finalGrade).
Proof. unfold graded_in. apply _. Defined.

(** The texts of the diffs, by the record they tell about. *)
Definition added_text (n : Assignment) : string :=
  msg_assignment_added (Assignment_Name n) (Assignment_ClassName n) (Assignment_Grade n).

Definition removed_text (o : Assignment) : string :=
  msg_assignment_removed (Assignment_Name o) (Assignment_ClassName o).

Definition class_added_text (c : Class) : string :=
  msg_class_added (Class_Name c) (Class_Grade c).

(** The actions of a cycle that loads both files, finds nothing to report and
    saves. *)
Definition quiet_cycle : list Action :=
  [LogInfo "Starting data fetch and comparison...";
   LogInfo "No changes in Classes.";
   LogInfo "No changes in Assignments.";
   WriteFile backupClassesFile;
   WriteFile backupAssignmentsFile;
   LogInfo "Data fetch and comparison completed."].

(** A world in which the fetch gives [student], the clock is [clock] and both
    files can be written. *)
Definition sees (student : Student) (clock : nat → Z) (w : World) : Prop :=
  GetStudent w = Ok student ∧ clock_of w = clock
  ∧ write_classes w = Written ∧ write_assignments w = Written.

(** A world in which the fetch fails. *)
Definition offline (w : World) : Prop := ∃ err, GetStudent w = Err err.

(** A world in which the cycle projects the classes [pc] and the assignments
    [pa], from whatever student record and clock it meets, and can write both
    files. *)
Definition projects (pc : list Class) (pa : list Assignment) (w : World) : Prop :=
  (∃ student, GetStudent w = Ok student
              ∧ projected_classes (clock_of w) student = pc
              ∧ projected_assignments (clock_of w) student = pa)
  ∧ write_classes w = Written ∧ write_assignments w = Written.

(** What the diffs look at in a record: its id and its grade. *)
Definition class_key (c : Class) : Z * string := (Class_ID c, Class_Grade c).
Definition assignment_key (a : Assignment) : Z * string :=
  (Assignment_ID a, Assignment_Grade a).

(** What the loop over the terms keeps true of its state, whatever the clock
    shows: the window bounds have only moved outwards from their start
    values, and every allowed id is the id of a quarter term among those seen
    that the window covers. *)
Definition term_invariant (seen : list ReportingTerm) (st : TermState) : Prop :=
  termBeginDate st ≤ date_2100_01_01
  ∧ date_2000_01_01 ≤ termDueDate st
  ∧ (length seen ≤ ticks st ≤ 2 * length seen)%nat
  ∧ ∀ id, is_allowed (allowedTerms st) id = true →
      ∃ t, t ∈ seen ∧ ReportingTerm_Id t = id
           ∧ String.prefix "Q" (Title t) = true
           ∧ termBeginDate st ≤ StartDate t ∧ EndDate t ≤ termDueDate st.

(** A world like [sample_world] but half a minute later, with another
    traversal order and a notifier that fails. *)
Definition later_world : World :=
  mkWorld (Ok sample_student) (frozen (day_2024_02_01 + 30 * nanosecond_per_second))
    order_backward (λ _, Some "timeout") Written Written.

(** A student whose grade in Math is the single byte 0xFF. *)
Definition broken_student : Student :=
  mkStudent (Sections sample_student) (ReportingTerms sample_student)
    [mkFinalGrade 10 1 (String "255" EmptyString)] [] [].

Definition broken_world : World :=
  mkWorld (Ok broken_student) (frozen day_2024_02_01) order_forward (λ _, None)
    Written Written.

(** * Properties *)

(** ** The old index *)

Lemma oldAssignmentMap_snoc (old : list Assignment) (a : Assignment) :
  oldAssignmentMap (old ++ [a]) = <[Assignment_ID a := a]> (oldAssignmentMap old).
Proof. unfold oldAssignmentMap. by rewrite foldl_app. Qed.

Lemma oldGrades_snoc (old : list Class) (c : Class) :
  oldGrades (old ++ [c]) = <[Class_ID c := Class_Grade c]> (oldGrades old).
Proof. unfold oldGrades. by rewrite foldl_app. Qed.

(** The index holds, for each id, the last old record with that id. *)
Lemma oldAssignmentMap_lookup (old : list Assignment) (i : Z) :
  oldAssignmentMap old !! i = last_assignment i old.
Proof.
  unfold last_assignment.
  induction old as [|a old IH] using rev_ind; [done|].
  rewrite oldAssignmentMap_snoc, filter_app.
  destruct (decide (Assignment_ID a = i)) as [Heq|Hne].
  - rewrite (filter_cons_True _ a []) by done.
    rewrite filter_nil, last_snoc. subst i. apply lookup_insert_eq.
  - rewrite (filter_cons_False _ a []) by done.
    rewrite filter_nil, app_nil_r, lookup_insert_ne by done. exact IH.
Qed.

Lemma oldGrades_lookup (old : list Class) (i : Z) :
  oldGrades old !! i = Class_Grade <$> last_class i old.
Proof.
  unfold last_class.
  induction old as [|c old IH] using rev_ind; [done|].
  rewrite oldGrades_snoc, filter_app.
  destruct (decide (Class_ID c = i)) as [Heq|Hne].
  - rewrite (filter_cons_True _ c []) by done.
    rewrite filter_nil, last_snoc. subst i. apply lookup_insert_eq.
  - rewrite (filter_cons_False _ c []) by done.
    rewrite filter_nil, app_nil_r, lookup_insert_ne by done. exact IH.
Qed.

Lemma last_assignment_id (old : list Assignment) (i : Z) (o : Assignment) :
  last_assignment i old = Some o → Assignment_ID o = i ∧ o ∈ old.
Proof.
  intros Hlast. apply last_Some_elem_of in Hlast.
  apply list_elem_of_filter in Hlast. tauto.
Qed.

Lemma last_assignment_is_Some (old : list Assignment) (i : Z) :
  i ∈ map Assignment_ID old → is_Some (last_assignment i old).
Proof.
  intros Hin. apply list_elem_of_fmap in Hin as (a & -> & Ha).
  unfold last_assignment.
  destruct (last (filter (λ a0, Assignment_ID a0 = Assignment_ID a) old)) eqn:E; [eauto|].
  apply last_None in E.
  exfalso. by eapply (filter_nil_not_elem_of _ _ a E).
Qed.

Lemma last_class_id (old : list Class) (i : Z) (o : Class) :
  last_class i old = Some o → Class_ID o = i ∧ o ∈ old.
Proof.
  intros Hlast. apply last_Some_elem_of in Hlast.
  apply list_elem_of_filter in Hlast. tauto.
Qed.

Lemma oldAssignmentMap_keyed (old : list Assignment) : keyed (oldAssignmentMap old).
Proof.
  intros k o Hko. rewrite oldAssignmentMap_lookup in Hko.
  by apply last_assignment_id in Hko as [? _].
Qed.

(** ** The index after the second loop *)

Lemma remaining_cons (m : gmap Z Assignment) (n : Assignment) (new : list Assignment) :
  remaining m (n :: new) = remaining (delete (Assignment_ID n) m) new.
Proof. done. Qed.

Lemma remaining_lookup (m : gmap Z Assignment) (new : list Assignment) (i : Z) :
  remaining m new !! i =
    if decide (i ∈ map Assignment_ID new) then None else m !! i.
Proof.
  revert m. induction new as [|n new IH]; intros m.
  - done.
  - rewrite remaining_cons, IH. simpl.
    destruct (decide (i ∈ map Assignment_ID new)) as [Hin|Hout];
      destruct (decide (i ∈ Assignment_ID n :: map Assignment_ID new))
        as [Hin'|Hout']; try done.
    + exfalso. apply Hout'. by apply list_elem_of_further.
    + apply elem_of_cons in Hin' as [->|?]; [apply lookup_delete_eq | done].
    + apply lookup_delete_ne. intros <-. apply Hout', list_elem_of_here.
Qed.

Lemma remaining_keyed (m : gmap Z Assignment) (new : list Assignment) :
  keyed m → keyed (remaining m new).
Proof.
  intros Hm k o. rewrite remaining_lookup. case_decide; [done|]. apply Hm.
Qed.

(** ** The change descriptions are the texts of the events *)

Lemma assignment_step_events (new : list Assignment) (m : gmap Z Assignment)
    (changes : list string) :
  foldl assignment_step (m, changes) new =
    (remaining m new, changes ++ map assignment_msg (assignment_scan m new)).
Proof.
  revert m changes. induction new as [|n new IH]; intros m changes.
  - simpl. by rewrite app_nil_r.
  - rewrite remaining_cons. cbn [foldl assignment_scan assignment_step].
    destruct (m !! Assignment_ID n) as [o|] eqn:E.
    + rewrite IH. f_equal.
      case_bool_decide; simpl; [|done].
      by rewrite <- app_assoc.
    + rewrite IH, (delete_id m) by done.
      f_equal. by rewrite <- app_assoc.
Qed.

Lemma removal_step_events (l : list (Z * Assignment)) (changes : list string) :
  foldl removal_step changes l =
    changes ++ map assignment_msg (map (λ entry, removed_of entry.2) l).
Proof.
  revert changes. induction l as [|entry l IH]; intros changes.
  - simpl. by rewrite app_nil_r.
  - simpl. rewrite IH. unfold removal_step. by rewrite <- app_assoc.
Qed.

Lemma compareAssignments_changes_events (ord : MapOrder) (old new : list Assignment) :
  compareAssignments_changes ord old new =
    map assignment_msg (assignment_events ord old new).
Proof.
  unfold compareAssignments_changes, assignment_events, assignment_removals.
  rewrite assignment_step_events, removal_step_events. simpl.
  by rewrite map_app.
Qed.

Lemma class_step_events (grades : gmap Z string) (new : list Class) (changes : list string) :
  Some <$> foldl (class_step grades) changes new =
    (Some <$> changes) ++ (class_msg <$> flat_map (class_event grades) new).
Proof.
  revert changes. induction new as [|c new IH]; intros changes.
  - simpl. by rewrite app_nil_r.
  - simpl. rewrite IH. unfold class_step, class_event.
    destruct (grades !! Class_ID c) as [g|]; [case_bool_decide|]; simpl;
      rewrite ?fmap_app, <- ?app_assoc; done.
Qed.

Lemma compareGrades_changes_events (old new : list Class) :
  Some <$> compareGrades_changes old new = class_msg <$> class_events old new.
Proof. apply (class_step_events _ _ []). Qed.

(** ** Kinds and ids of the events *)

Lemma of_kind_app (k : Kind) (l1 l2 : list Event) :
  of_kind k (l1 ++ l2) = of_kind k l1 ++ of_kind k l2.
Proof. apply filter_app. Qed.

Lemma about_app (i : Z) (l1 l2 : list Event) :
  about i (l1 ++ l2) = about i l1 ++ about i l2.
Proof. apply filter_app. Qed.

Lemma filter_none {A : Type} (P : A → Prop) `{∀ x, Decision (P x)} (l : list A) :
  (∀ x, x ∈ l → ¬ P x) → filter P l = [].
Proof.
  induction l as [|x l IH]; intros Hl; [done|].
  rewrite filter_cons_False by (apply Hl, list_elem_of_here).
  apply IH. intros y Hy. by apply Hl, list_elem_of_further.
Qed.

Lemma filter_all {A : Type} (P : A → Prop) `{∀ x, Decision (P x)} (l : list A) :
  (∀ x, x ∈ l → P x) → filter P l = l.
Proof.
  induction l as [|x l IH]; intros Hl; [done|].
  rewrite filter_cons_True by (apply Hl, list_elem_of_here).
  f_equal. apply IH. intros y Hy. by apply Hl, list_elem_of_further.
Qed.

Lemma assignment_event_kind (m : gmap Z Assignment) (n : Assignment) (e : Event) :
  e ∈ assignment_event m n → ev_kind e ≠ Removed ∧ ev_id e = Assignment_ID n.
Proof.
  unfold assignment_event.
  destruct (m !! Assignment_ID n) as [o|]; [case_bool_decide|];
    intros He; inversion He; subst; try done;
    match goal with H : _ ∈ [] |- _ => inversion H end.
Qed.

Lemma assignment_scan_cons (m : gmap Z Assignment) (n : Assignment) (new : list Assignment) :
  assignment_scan m (n :: new) =
    assignment_event m n ++ assignment_scan (delete (Assignment_ID n) m) new.
Proof.
  unfold assignment_event. simpl.
  destruct (m !! Assignment_ID n) eqn:E; [done|].
  by rewrite (delete_id m).
Qed.

Lemma assignment_scan_kind (new : list Assignment) (m : gmap Z Assignment) (e : Event) :
  e ∈ assignment_scan m new →
  ev_kind e ≠ Removed ∧ ev_id e ∈ map Assignment_ID new.
Proof.
  revert m. induction new as [|n new IH]; intros m He; [by inversion He|].
  rewrite assignment_scan_cons in He. apply elem_of_app in He as [He|He].
  - apply assignment_event_kind in He as [? ->]. split; [done|]. apply list_elem_of_here.
  - apply IH in He as [? ?]. split; [done|]. by apply list_elem_of_further.
Qed.

Lemma assignment_scan_not_removed (m : gmap Z Assignment) (new : list Assignment) :
  of_kind Removed (assignment_scan m new) = [].
Proof.
  apply filter_none. intros e He. by apply assignment_scan_kind in He as [? _].
Qed.

Lemma assignment_removals_removed (ord : MapOrder) (m : gmap Z Assignment) :
  of_kind Removed (assignment_removals ord m) = assignment_removals ord m.
Proof.
  apply filter_all. intros e He.
  apply list_elem_of_fmap in He as (entry & -> & _). done.
Qed.

(** The removed events of a run are those of its third loop. *)
Lemma removed_events (ord : MapOrder) (old new : list Assignment) :
  of_kind Removed (assignment_events ord old new) =
    assignment_removals ord (remaining (oldAssignmentMap old) new).
Proof.
  unfold assignment_events.
  by rewrite of_kind_app, assignment_scan_not_removed, assignment_removals_removed.
Qed.

Lemma keyed_insert (m : gmap Z Assignment) (k : Z) (o : Assignment) :
  m !! k = None → keyed (<[k := o]> m) → Assignment_ID o = k ∧ keyed m.
Proof.
  intros Hk Hkeyed. split.
  - apply Hkeyed, lookup_insert_eq.
  - intros j x Hj. apply Hkeyed.
    rewrite lookup_insert_ne; [done|]. intros ->. congruence.
Qed.

Lemma about_entries (m : gmap Z Assignment) (i : Z) :
  keyed m →
  about i (map (λ entry, removed_of entry.2) (map_to_list m)) ≡ₚ
    match m !! i with Some o => [removed_of o] | None => [] end.
Proof.
  induction m as [|k o m Hk IH] using map_ind; intros Hkeyed.
  - by rewrite map_to_list_empty.
  - apply keyed_insert in Hkeyed as [Hid Hkeyed]; [|done].
    specialize (IH Hkeyed). unfold about in *.
    assert (map (λ entry, removed_of entry.2) (map_to_list (<[k:=o]> m)) ≡ₚ
              removed_of o :: map (λ entry, removed_of entry.2) (map_to_list m))
      as Hperm.
    { apply (Permutation_map (λ entry : Z * Assignment, removed_of entry.2)
               (l' := (k, o) :: map_to_list m)).
      by apply map_to_list_insert. }
    rewrite Hperm.
    destruct (decide (k = i)) as [->|Hne].
    + rewrite filter_cons_True by done.
      rewrite lookup_insert_eq, IH, Hk. done.
    + rewrite filter_cons_False by (simpl; congruence).
      rewrite lookup_insert_ne by done. exact IH.
Qed.

(** Among the events of the third loop there is one about an id exactly
    when the index still holds it, and it tells the record held. *)
Lemma about_removals (ord : MapOrder) (m : gmap Z Assignment) (i : Z) :
  keyed m →
  about i (assignment_removals ord m) =
    match m !! i with Some o => [removed_of o] | None => [] end.
Proof.
  intros Hkeyed.
  assert (about i (assignment_removals ord m) ≡ₚ
            match m !! i with Some o => [removed_of o] | None => [] end) as Hperm.
  { rewrite <- (about_entries m i Hkeyed).
    unfold about, assignment_removals.
    apply filter_Permutation, Permutation_map, range_map_perm. }
  destruct (m !! i).
  - by apply Permutation_singleton_r.
  - by apply Permutation_nil_r.
Qed.

(** An id that the new collection does not hold leaves the scan untouched. *)
Lemma assignment_scan_delete (new : list Assignment) (m : gmap Z Assignment) (i : Z) :
  i ∉ map Assignment_ID new →
  assignment_scan (delete i m) new = assignment_scan m new.
Proof.
  revert m. induction new as [|n new IH]; intros m Hi; [done|].
  simpl in Hi. apply not_elem_of_cons in Hi as [Hne Hi].
  rewrite !assignment_scan_cons, delete_delete, !IH by done.
  f_equal. unfold assignment_event. by rewrite lookup_delete_ne.
Qed.

(** With distinct new ids every new record is judged against the old index
    as it was at the start. *)
Lemma assignment_scan_NoDup (new : list Assignment) (m : gmap Z Assignment) :
  NoDup (map Assignment_ID new) →
  assignment_scan m new = flat_map (assignment_event m) new.
Proof.
  induction new as [|n new IH]; intros Hnd; [done|].
  simpl in Hnd. apply NoDup_cons in Hnd as [Hn Hnd].
  rewrite assignment_scan_cons, assignment_scan_delete, IH by done. done.
Qed.

(** Without any id in common, the scan reports every new record as added. *)
Lemma assignment_scan_disjoint (new : list Assignment) (m : gmap Z Assignment) :
  (∀ n, n ∈ new → m !! Assignment_ID n = None) →
  assignment_scan m new = map added_of new ∧ remaining m new = m.
Proof.
  induction new as [|n new IH]; intros Hm; [done|].
  assert (m !! Assignment_ID n = None) as Hn by apply Hm, list_elem_of_here.
  destruct IH as [IH1 IH2].
  { intros x Hx. by apply Hm, list_elem_of_further. }
  rewrite remaining_cons. simpl. rewrite Hn, (delete_id m) by done.
  by rewrite IH1, IH2.
Qed.

Lemma class_event_kind (grades : gmap Z string) (c : Class) (e : Event) :
  e ∈ class_event grades c → ev_kind e ≠ Removed ∧ ev_id e = Class_ID c.
Proof.
  unfold class_event.
  destruct (grades !! Class_ID c) as [g|]; [case_bool_decide|];
    intros He; inversion He; subst; try done;
    match goal with H : _ ∈ [] |- _ => inversion H end.
Qed.

Lemma class_events_kind (old new : list Class) (e : Event) :
  e ∈ class_events old new → ev_kind e ≠ Removed ∧ ev_id e ∈ map Class_ID new.
Proof.
  unfold class_events. generalize (oldGrades old) as grades. intros grades.
  induction new as [|c new IH]; intros He; [by inversion He|].
  simpl in He. apply elem_of_app in He as [He|He].
  - apply class_event_kind in He as [? ->]. split; [done|]. apply list_elem_of_here.
  - apply IH in He as [? ?]. split; [done|]. by apply list_elem_of_further.
Qed.

Lemma class_events_not_removed (old new : list Class) :
  of_kind Removed (class_events old new) = [].
Proof.
  apply filter_none. intros e He. by apply class_events_kind in He as [? _].
Qed.

(** ** Events about one id *)

Section about_flat_map.
Context {A : Type} (g : A → Z) (f : A → list Event).
Hypothesis f_id : ∀ x e, e ∈ f x → ev_id e = g x.

Lemma about_flat_map_out (l : list A) (i : Z) :
  i ∉ map g l → about i (flat_map f l) = [].
Proof.
  intros Hi. apply filter_none. intros e He Hid.
  apply list_elem_of_In, in_flat_map in He as (x & Hx & He).
  apply list_elem_of_In in Hx, He. apply f_id in He.
  apply Hi. rewrite <- Hid, He. by apply (list_elem_of_fmap_2 g).
Qed.

Lemma about_flat_map_in (l : list A) (n : A) :
  NoDup (map g l) → n ∈ l → about (g n) (flat_map f l) = f n.
Proof.
  induction l as [|x l IH]; intros Hnd Hn; [by inversion Hn|].
  simpl in Hnd. apply NoDup_cons in Hnd as [Hx Hnd].
  simpl. rewrite about_app.
  apply elem_of_cons in Hn as [->|Hn].
  - rewrite about_flat_map_out, app_nil_r by done.
    apply filter_all. intros e He. by apply f_id.
  - rewrite IH by done.
    unfold about at 1. rewrite filter_none; [done|].
    intros e He Hid. apply f_id in He.
    apply Hx. rewrite <- He, Hid. by apply (list_elem_of_fmap_2 g).
Qed.
End about_flat_map.

Lemma assignment_event_length (m : gmap Z Assignment) (n : Assignment) :
  (length (assignment_event m n) ≤ 1)%nat.
Proof.
  unfold assignment_event.
  destruct (m !! Assignment_ID n); [case_bool_decide|]; simpl; lia.
Qed.

Lemma class_event_length (grades : gmap Z string) (c : Class) :
  (length (class_event grades c) ≤ 1)%nat.
Proof.
  unfold class_event.
  destruct (grades !! Class_ID c); [case_bool_decide|]; simpl; lia.
Qed.

(** Events about the id of a new record, when the new ids are distinct. *)
Lemma about_new_assignment (ord : MapOrder) (old new : list Assignment) (n : Assignment) :
  NoDup (map Assignment_ID new) → n ∈ new →
  about (Assignment_ID n) (assignment_events ord old new) =
    assignment_event (oldAssignmentMap old) n.
Proof.
  intros Hnd Hn. unfold assignment_events.
  rewrite about_app, assignment_scan_NoDup by done.
  rewrite (about_flat_map_in Assignment_ID); [|by intros x e [_ ?]%assignment_event_kind|done..].
  rewrite about_removals by apply remaining_keyed, oldAssignmentMap_keyed.
  rewrite remaining_lookup, decide_True by (by apply (list_elem_of_fmap_2 Assignment_ID)).
  by rewrite app_nil_r.
Qed.

(** Events about an id that no new record has. *)
Lemma about_old_assignment (ord : MapOrder) (old new : list Assignment) (i : Z) :
  i ∉ map Assignment_ID new →
  about i (assignment_events ord old new) =
    match last_assignment i old with Some o => [removed_of o] | None => [] end.
Proof.
  intros Hi. unfold assignment_events. rewrite about_app.
  unfold about at 1. rewrite filter_none.
  - rewrite about_removals by apply remaining_keyed, oldAssignmentMap_keyed.
    by rewrite remaining_lookup, decide_False, oldAssignmentMap_lookup.
  - intros e He Hid. apply assignment_scan_kind in He as [_ He]. by rewrite Hid in He.
Qed.

(** The removed events about an id. *)
Lemma about_removed (ord : MapOrder) (old new : list Assignment) (i : Z) :
  about i (of_kind Removed (assignment_events ord old new)) =
    if decide (i ∈ map Assignment_ID new) then []
    else match last_assignment i old with Some o => [removed_of o] | None => [] end.
Proof.
  rewrite removed_events.
  rewrite about_removals by apply remaining_keyed, oldAssignmentMap_keyed.
  rewrite remaining_lookup. case_decide; [done|].
  by rewrite oldAssignmentMap_lookup.
Qed.

Lemma removed_event_origin (ord : MapOrder) (old new : list Assignment) (e : Event) :
  e ∈ of_kind Removed (assignment_events ord old new) →
  ev_id e ∈ map Assignment_ID old ∧ (ev_id e ∉ map Assignment_ID new)
  ∧ ∃ o, last_assignment (ev_id e) old = Some o ∧ e = removed_of o.
Proof.
  rewrite removed_events. unfold assignment_removals.
  intros He. apply list_elem_of_fmap in He as ([k o] & -> & Hin).
  rewrite (range_map_perm ord) in Hin. apply elem_of_map_to_list in Hin.
  rewrite remaining_lookup in Hin. case_decide as Hnew; [done|].
  rewrite oldAssignmentMap_lookup in Hin.
  destruct (last_assignment_id _ _ _ Hin) as [Hid Hold]. simpl.
  rewrite Hid. split_and!; [|done|by exists o].
  rewrite <- Hid. by apply (list_elem_of_fmap_2 Assignment_ID).
Qed.

Lemma about_new_class (old new : list Class) (c : Class) :
  NoDup (map Class_ID new) → c ∈ new →
  about (Class_ID c) (class_events old new) = class_event (oldGrades old) c.
Proof.
  intros Hnd Hc. unfold class_events.
  apply (about_flat_map_in Class_ID); [|done..].
  intros x e He. by apply class_event_kind in He as [_ ?].
Qed.

Lemma about_old_class (old new : list Class) (i : Z) :
  i ∉ map Class_ID new → about i (class_events old new) = [].
Proof.
  intros Hi. unfold class_events.
  apply (about_flat_map_out Class_ID); [|done].
  intros x e He. by apply class_event_kind in He as [_ ?].
Qed.

Lemma last_assignment_None (old : list Assignment) (i : Z) :
  i ∉ map Assignment_ID old → last_assignment i old = None.
Proof.
  intros Hi. destruct (last_assignment i old) as [o|] eqn:E; [|done].
  apply last_assignment_id in E as [<- Ho].
  exfalso. by apply Hi, (list_elem_of_fmap_2 Assignment_ID).
Qed.

Lemma last_class_None (old : list Class) (i : Z) :
  i ∉ map Class_ID old → last_class i old = None.
Proof.
  intros Hi. destruct (last_class i old) as [o|] eqn:E; [|done].
  apply last_class_id in E as [<- Ho].
  exfalso. by apply Hi, (list_elem_of_fmap_2 Class_ID).
Qed.

(** Closed decidable statements are settled by evaluation. *)
Ltac by_evaluation := apply (bool_decide_unpack _); vm_compute; exact I.

(** ** What the texts tell *)

Lemma prefix_empty (s : string) : String.prefix "" s = true.
Proof. by destruct s. Qed.

Lemma msg_kind_assignment (e : Event) :
  msg_kind (assignment_msg e) = Some (ev_kind e).
Proof.
  destruct e as [[] ? ? ? ? ?]; unfold msg_kind; simpl;
    by rewrite ?prefix_empty.
Qed.

Lemma msg_kind_class (e : Event) (s : string) :
  class_msg e = Some s → msg_kind s = Some (ev_kind e).
Proof.
  destruct e as [[] ? ? ? ? ?]; intros [= <-]; unfold msg_kind; simpl;
    by rewrite ?prefix_empty.
Qed.

Lemma class_changes_not_removed (old new : list Class) (s : string) :
  s ∈ compareGrades_changes old new → msg_kind s ≠ Some Removed.
Proof.
  intros Hs. apply (list_elem_of_fmap_2 Some) in Hs.
  rewrite compareGrades_changes_events in Hs.
  apply list_elem_of_fmap in Hs as (e & Hmsg & He).
  symmetry in Hmsg. apply msg_kind_class in Hmsg. rewrite Hmsg.
  apply class_events_kind in He as [Hk _]. congruence.
Qed.

(** ** Removed events *)

(** C1.  The class diff misses the removals that the claim asks of both
    diffs.  Class 10 is in the old collection and not in the new one, yet the
    class diff produces no text and no removed event and logs that nothing
    changed; it does so whenever the new collection is empty.  On the same
    kind of input the assignment diff, with its loop over what is left of the
    old index, reports the removal. *)
Lemma removed_class_not_reported :
  let old := [math_B] in
  let new : list Class := [] in
  10 ∈ map Class_ID old ∧ (10 ∉ map Class_ID new) ∧
  compareGrades_changes old new = [] ∧
  length (about 10 (of_kind Removed (class_events old new))) ≠ 1%nat ∧
  (∀ post oldc, compareGradesAndNotifyChanges post oldc new
                = [LogInfo "No changes in Classes."]) ∧
  compareAssignments_changes order_forward [hw1] [] =
    ["Assignment removed: 'HW1' from class Math"].
Proof. split_and!; try by_evaluation. done. Qed.

(** X18.  For an id [i] that the old assignments hold and the new ones do
    not, the assignment diff has exactly one removed event about [i]; it
    carries the name and the class name of the last old record with that id,
    and its text is among the changes.  Every removed event is about such an
    id. *)
Theorem removed_once_per_missing_assignment (ord : MapOrder)
    (old new : list Assignment) (i : Z) :
  i ∈ map Assignment_ID old →
  i ∉ map Assignment_ID new →
  (∃ o, last_assignment i old = Some o
        ∧ about i (of_kind Removed (assignment_events ord old new)) = [removed_of o]
        ∧ msg_assignment_removed (Assignment_Name o) (Assignment_ClassName o)
            ∈ compareAssignments_changes ord old new)
  ∧ (∀ e, e ∈ of_kind Removed (assignment_events ord old new) →
          ev_id e ∈ map Assignment_ID old ∧ ev_id e ∉ map Assignment_ID new)
  ∧ compareAssignments_changes ord old new =
      map assignment_msg (assignment_events ord old new).
Proof.
  intros Hold Hnew. split_and!.
  - destruct (last_assignment_is_Some old i Hold) as [o Ho]. exists o.
    assert (about i (of_kind Removed (assignment_events ord old new)) = [removed_of o])
      as Habout by (by rewrite about_removed, decide_False, Ho).
    split_and!; [done..|].
    rewrite compareAssignments_changes_events.
    apply (list_elem_of_fmap_2' assignment_msg _ (removed_of o)); [|done].
    assert (removed_of o ∈ about i (of_kind Removed (assignment_events ord old new)))
      as Hin by (rewrite Habout; apply list_elem_of_here).
    unfold about, of_kind in Hin.
    apply list_elem_of_filter in Hin as [_ Hin].
    by apply list_elem_of_filter in Hin as [_ Hin].
  - intros e He. apply removed_event_origin in He. tauto.
  - apply compareAssignments_changes_events.
Qed.

Lemma removed_once_per_missing_assignment_witness :
  2 ∈ map Assignment_ID [hw1; hw2] ∧ (2 ∉ map Assignment_ID [hw1]) ∧
  about 2 (of_kind Removed (assignment_events order_backward [hw1; hw2] [hw1]))
    = [removed_of hw2].
Proof.
  assert (2 ∈ map Assignment_ID [hw1; hw2]) as Hold by by_evaluation.
  assert (2 ∉ map Assignment_ID [hw1]) as Hnew by by_evaluation.
  split_and!; [done..|].
  destruct (removed_once_per_missing_assignment order_backward [hw1; hw2] [hw1]
              2 Hold Hnew) as [(o & Ho & Habout & _) _].
  rewrite Habout. f_equal.
  assert (last_assignment 2 [hw1; hw2] = Some hw2) as Hlast by by_evaluation.
  congruence.
Defined.

(** ** Collections without a common id *)

Lemma oldAssignmentMap_empty_inv (old : list Assignment) :
  oldAssignmentMap old = ∅ → old = [].
Proof.
  destruct old as [|a old]; [done|]. intros Hempty. exfalso.
  destruct (last_assignment_is_Some (a :: old) (Assignment_ID a)) as [o Ho].
  { apply list_elem_of_here. }
  rewrite <- oldAssignmentMap_lookup, Hempty in Ho. by rewrite lookup_empty in Ho.
Qed.

Lemma assignment_removals_length (ord : MapOrder) (m : gmap Z Assignment) :
  length (assignment_removals ord m) = size m.
Proof.
  unfold assignment_removals.
  rewrite length_map, (Permutation_length (range_map_perm ord m)).
  apply length_map_to_list.
Qed.

Lemma class_events_disjoint (old new : list Class) :
  (∀ i, i ∈ map Class_ID new → i ∉ map Class_ID old) →
  class_events old new = map class_added_of new.
Proof.
  intros Hdisj. unfold class_events.
  induction new as [|c new IH]; [done|].
  simpl. rewrite IH by (intros i Hi; by apply Hdisj, list_elem_of_further).
  unfold class_event.
  rewrite oldGrades_lookup, last_class_None; [done|].
  apply Hdisj, list_elem_of_here.
Qed.

(** C2, as stated, fails on the assignment diff: the old record, whose id the
    new collection does not hold, is reported as removed. *)
Lemma disjoint_old_assignment_removed :
  let old := [hw1] in
  let new := [hw3] in
  (∀ i, i ∈ map Assignment_ID new → i ∉ map Assignment_ID old) ∧
  of_kind Removed (assignment_events order_forward old new) = [removed_of hw1] ∧
  compareAssignments_changes order_forward old new =
    ["New assignment added: 'HW3' in class Art with grade 70%";
     "Assignment removed: 'HW1' from class Math"].
Proof.
  split_and!; [|by_evaluation..].
  intros i Hi Hold. simpl in Hi, Hold.
  apply list_elem_of_singleton in Hi, Hold. congruence.
Qed.

(** C2, amended.  When the old and the new collection have no id in common,
    both diffs emit one added event per new record, in the order of the new
    records, and no event of a changed grade.  The class diff emits no removed
    event.  The assignment diff emits after them one removed event for each
    id of the old collection, so it emits none exactly when the old
    collection is empty. *)
Theorem disjoint_ids_added_and_removed (ord : MapOrder)
    (old new : list Assignment) (oldc newc : list Class) :
  (∀ i, i ∈ map Assignment_ID new → i ∉ map Assignment_ID old) →
  (∀ i, i ∈ map Class_ID newc → i ∉ map Class_ID oldc) →
  assignment_events ord old new =
    map added_of new ++ assignment_removals ord (oldAssignmentMap old)
  ∧ of_kind Removed (assignment_events ord old new) =
      assignment_removals ord (oldAssignmentMap old)
  ∧ (∀ i o, last_assignment i old = Some o →
       about i (of_kind Removed (assignment_events ord old new)) = [removed_of o])
  ∧ length (of_kind Removed (assignment_events ord old new)) = size (oldAssignmentMap old)
  ∧ (of_kind Removed (assignment_events ord old new) = [] ↔ old = [])
  ∧ class_events oldc newc = map class_added_of newc
  ∧ of_kind Removed (class_events oldc newc) = []
  ∧ compareAssignments_changes ord old new =
      map assignment_msg (assignment_events ord old new)
  ∧ Some <$> compareGrades_changes oldc newc = class_msg <$> class_events oldc newc.
Proof.
  intros Hdisj Hdisjc.
  destruct (assignment_scan_disjoint new (oldAssignmentMap old)) as [Hscan Hrem].
  { intros n Hn. rewrite oldAssignmentMap_lookup. apply last_assignment_None.
    by apply Hdisj, (list_elem_of_fmap_2 Assignment_ID). }
  assert (of_kind Removed (assignment_events ord old new) =
            assignment_removals ord (oldAssignmentMap old)) as Hremoved
    by (by rewrite removed_events, Hrem).
  split_and!.
  - unfold assignment_events. by rewrite Hscan, Hrem.
  - done.
  - intros i o Ho. rewrite about_removed, Ho.
    rewrite decide_False; [done|].
    intros Hi. apply (Hdisj i Hi).
    apply last_assignment_id in Ho as [<- Ho].
    by apply (list_elem_of_fmap_2 Assignment_ID).
  - by rewrite Hremoved, assignment_removals_length.
  - rewrite Hremoved. split.
    + intros Hnil. apply oldAssignmentMap_empty_inv, map_size_empty_inv.
      by rewrite <- (assignment_removals_length ord), Hnil.
    + intros ->. apply length_zero_iff_nil.
      by rewrite assignment_removals_length.
  - by apply class_events_disjoint.
  - apply class_events_not_removed.
  - apply compareAssignments_changes_events.
  - apply compareGrades_changes_events.
Qed.

Lemma disjoint_ids_added_and_removed_witness :
  assignment_events order_forward [hw1; hw2] [hw3] =
    [added_of hw3; removed_of hw2; removed_of hw1]
  ∧ class_events [math_B] [art_C] = [class_added_of art_C].
Proof.
  assert (∀ i, i ∈ map Assignment_ID [hw3] → i ∉ map Assignment_ID [hw1; hw2]) as Ha.
  { intros i ->%list_elem_of_singleton. by_evaluation. }
  assert (∀ i, i ∈ map Class_ID [art_C] → i ∉ map Class_ID [math_B]) as Hc.
  { intros i ->%list_elem_of_singleton. by_evaluation. }
  destruct (disjoint_ids_added_and_removed order_forward [hw1; hw2] [hw3]
              [math_B] [art_C] Ha Hc) as (Hev & _ & _ & _ & _ & Hcl & _).
  split; [rewrite Hev; by_evaluation | exact Hcl].
Defined.

(** ** Two runs on the same collections *)

Lemma assignment_removals_perm (ord1 ord2 : MapOrder) (m : gmap Z Assignment) :
  assignment_removals ord1 m ≡ₚ assignment_removals ord2 m.
Proof.
  unfold assignment_removals. apply Permutation_map.
  by rewrite !range_map_perm.
Qed.

Lemma assignment_event_sublist (m : gmap Z Assignment) (n : Assignment) (l k : list Z) :
  l `sublist_of` k →
  map ev_id (assignment_event m n) ++ l `sublist_of` Assignment_ID n :: k.
Proof.
  intros Hlk. unfold assignment_event.
  destruct (m !! Assignment_ID n); [case_bool_decide|]; simpl;
    by constructor.
Qed.

Lemma assignment_scan_sublist (new : list Assignment) (m : gmap Z Assignment) :
  map ev_id (assignment_scan m new) `sublist_of` map Assignment_ID new.
Proof.
  revert m. induction new as [|n new IH]; intros m; [constructor|].
  rewrite assignment_scan_cons, map_app. simpl.
  apply assignment_event_sublist, IH.
Qed.

Lemma class_events_sublist (old new : list Class) :
  map ev_id (class_events old new) `sublist_of` map Class_ID new.
Proof.
  unfold class_events. induction new as [|c new IH]; [constructor|].
  simpl. rewrite map_app. unfold class_event at 1.
  destruct (oldGrades old !! Class_ID c); [case_bool_decide|]; simpl;
    by constructor.
Qed.

(** C3, as stated, fails on the assignment diff: with two old records gone,
    two traversals of the old index give the two removal texts in two orders. *)
Lemma removal_order_differs :
  compareAssignments_changes order_forward [hw1; hw2] []
    ≠ compareAssignments_changes order_backward [hw1; hw2] []
  ∧ compareAssignments_changes order_forward [hw1; hw2] [] =
      ["Assignment removed: 'HW2' from class Math";
       "Assignment removed: 'HW1' from class Math"]
  ∧ compareAssignments_changes order_backward [hw1; hw2] [] =
      ["Assignment removed: 'HW1' from class Math";
       "Assignment removed: 'HW2' from class Math"].
Proof. split_and!; by_evaluation. Qed.

(** C3, amended.  Two runs of the assignment diff on the same collections,
    each with its own traversal of the old index, produce the same events of
    changed grades and additions, in the order of the new records, followed
    by removed events that are the same up to their order.  The events of the
    class diff depend on the two collections only and follow the order of the
    new records. *)
Theorem runs_agree_up_to_removal_order (ord1 ord2 : MapOrder)
    (old new : list Assignment) (oldc newc : list Class) :
  let scan := assignment_scan (oldAssignmentMap old) new in
  let left_over := remaining (oldAssignmentMap old) new in
  compareAssignments_changes ord1 old new =
    map assignment_msg scan ++ map assignment_msg (assignment_removals ord1 left_over)
  ∧ compareAssignments_changes ord2 old new =
      map assignment_msg scan ++ map assignment_msg (assignment_removals ord2 left_over)
  ∧ assignment_removals ord1 left_over ≡ₚ assignment_removals ord2 left_over
  ∧ compareAssignments_changes ord1 old new ≡ₚ compareAssignments_changes ord2 old new
  ∧ of_kind Removed scan = []
  ∧ map ev_id scan `sublist_of` map Assignment_ID new
  ∧ of_kind Removed (assignment_removals ord1 left_over) = assignment_removals ord1 left_over
  ∧ Some <$> compareGrades_changes oldc newc = class_msg <$> class_events oldc newc
  ∧ map ev_id (class_events oldc newc) `sublist_of` map Class_ID newc.
Proof.
  intros scan left_over.
  assert (∀ ord, compareAssignments_changes ord old new =
            map assignment_msg scan ++ map assignment_msg (assignment_removals ord left_over))
    as Hrun.
  { intros ord. rewrite compareAssignments_changes_events.
    unfold assignment_events. by rewrite map_app. }
  split_and!.
  - apply Hrun.
  - apply Hrun.
  - apply assignment_removals_perm.
  - rewrite !Hrun. apply Permutation_app_head, Permutation_map, assignment_removals_perm.
  - apply assignment_scan_not_removed.
  - apply assignment_scan_sublist.
  - apply assignment_removals_removed.
  - apply compareGrades_changes_events.
  - apply class_events_sublist.
Qed.

Lemma flat_map_nil' {A B : Type} (f : A → list B) (l : list A) :
  (∀ x, x ∈ l → f x = []) → flat_map f l = [].
Proof.
  induction l as [|a l IH]; intros Hf; [done|].
  simpl. rewrite Hf by apply list_elem_of_here.
  apply IH. intros x Hx. by apply Hf, list_elem_of_further.
Qed.

Lemma flat_map_ext' {A B : Type} (f g : A → list B) (l : list A) :
  (∀ x, x ∈ l → f x = g x) → flat_map f l = flat_map g l.
Proof.
  induction l as [|a l IH]; intros Hfg; [done|].
  simpl. rewrite Hfg by apply list_elem_of_here. f_equal.
  apply IH. intros x Hx. by apply Hfg, list_elem_of_further.
Qed.

(** ** Events about one id, whatever ids repeat *)

Lemma about_assignment_event (m : gmap Z Assignment) (x : Assignment) (i : Z) :
  about i (assignment_event m x) =
    if decide (Assignment_ID x = i) then assignment_event m x else [].
Proof.
  case_decide as Hid.
  - apply filter_all. intros e He. apply assignment_event_kind in He as [_ ->]. done.
  - apply filter_none. intros e He. apply assignment_event_kind in He as [_ ->]. done.
Qed.

(** Once the index does not hold an id, every new record with that id is
    reported as added. *)
Lemma about_scan_fresh (new : list Assignment) (m : gmap Z Assignment) (i : Z) :
  m !! i = None →
  about i (assignment_scan m new) =
    map added_of (filter (λ n, Assignment_ID n = i) new).
Proof.
  revert m. induction new as [|x new IH]; intros m Hm; [done|].
  rewrite assignment_scan_cons, about_app, about_assignment_event.
  rewrite IH by (apply lookup_delete_None; by right).
  destruct (decide (Assignment_ID x = i)) as [Hid|Hid].
  - rewrite filter_cons_True by done. unfold assignment_event.
    by rewrite Hid, Hm.
  - by rewrite filter_cons_False.
Qed.

(** The first new record with an id is judged against the index; the later
    ones find the id gone from it. *)
Lemma about_scan (new : list Assignment) (m : gmap Z Assignment) (i : Z) :
  about i (assignment_scan m new) =
    match filter (λ n, Assignment_ID n = i) new with
    | [] => []
    | n :: later => assignment_event m n ++ map added_of later
    end.
Proof.
  revert m. induction new as [|x new IH]; intros m; [done|].
  rewrite assignment_scan_cons, about_app, about_assignment_event.
  destruct (decide (Assignment_ID x = i)) as [Hid|Hid].
  - rewrite filter_cons_True by done. f_equal.
    apply about_scan_fresh. rewrite Hid. apply lookup_delete_eq.
  - rewrite filter_cons_False by done. rewrite IH. simpl.
    destruct (filter (λ n, Assignment_ID n = i) new) as [|n later] eqn:E; [done|].
    assert (Assignment_ID n = i) as Hn.
    { assert (n ∈ filter (λ n, Assignment_ID n = i) new) as Hin
        by (rewrite E; apply list_elem_of_here).
      by apply list_elem_of_filter in Hin as [? _]. }
    unfold assignment_event. rewrite lookup_delete_ne by congruence. done.
Qed.

Lemma filter_id_nil (new : list Assignment) (i : Z) :
  filter (λ n, Assignment_ID n = i) new = [] ↔ i ∉ map Assignment_ID new.
Proof.
  split.
  - intros Hnil (n & -> & Hn)%list_elem_of_fmap.
    by apply (filter_nil_not_elem_of _ _ n Hnil).
  - intros Hi. apply filter_none. intros n Hn Hid. apply Hi. rewrite <- Hid.
    by apply (list_elem_of_fmap_2 Assignment_ID).
Qed.

(** All the events of the assignment diff about one id. *)
Lemma about_assignment_events (ord : MapOrder) (old new : list Assignment) (i : Z) :
  about i (assignment_events ord old new) =
    match filter (λ n, Assignment_ID n = i) new with
    | [] => match last_assignment i old with Some o => [removed_of o] | None => [] end
    | n :: later => assignment_event (oldAssignmentMap old) n ++ map added_of later
    end.
Proof.
  unfold assignment_events. rewrite about_app, about_scan.
  rewrite about_removals by apply remaining_keyed, oldAssignmentMap_keyed.
  rewrite remaining_lookup, oldAssignmentMap_lookup.
  destruct (filter (λ n, Assignment_ID n = i) new) as [|n later] eqn:E.
  - apply filter_id_nil in E. by rewrite decide_False.
  - rewrite decide_True, app_nil_r; [done|].
    destruct (decide (i ∈ map Assignment_ID new)) as [|Hi]; [done|].
    apply filter_id_nil in Hi. congruence.
Qed.

(** All the events of the class diff about one id: every new record with the
    id is judged against the index, which the class diff never changes. *)
Lemma about_class_events (old new : list Class) (i : Z) :
  about i (class_events old new) =
    flat_map (class_event (oldGrades old)) (filter (λ c, Class_ID c = i) new).
Proof.
  unfold class_events. induction new as [|c new IH]; [done|].
  simpl. rewrite about_app, IH.
  destruct (decide (Class_ID c = i)) as [Hid|Hid].
  - rewrite filter_cons_True by done. simpl. f_equal.
    apply filter_all. intros e He. by apply class_event_kind in He as [_ ->].
  - rewrite filter_cons_False by done.
    unfold about at 1. rewrite filter_none; [done|].
    intros e He. by apply class_event_kind in He as [_ ->].
Qed.

Lemma filter_id_NoDup (new : list Assignment) (n : Assignment) :
  NoDup (map Assignment_ID new) → n ∈ new →
  filter (λ x, Assignment_ID x = Assignment_ID n) new = [n].
Proof.
  induction new as [|x new IH]; intros Hnd Hn; [by inversion Hn|].
  simpl in Hnd. apply NoDup_cons in Hnd as [Hx Hnd].
  apply elem_of_cons in Hn as [->|Hn].
  - rewrite filter_cons_True by done. f_equal. by apply filter_id_nil.
  - rewrite filter_cons_False; [by apply IH|].
    intros Hid. apply Hx. rewrite Hid. by apply (list_elem_of_fmap_2 Assignment_ID).
Qed.

(** ** Records present in both collections *)

(** C9, as stated, fails on the assignment diff when the id is repeated among
    the new records: the old and the new records have the same grade, yet the
    second new record, finding the id deleted from the old index, is reported
    as added. *)
Lemma equal_grade_repeated_id_reported :
  let old := [hw1] in
  let new := [hw1; hw1] in
  hw1 ∈ new ∧ last_assignment (Assignment_ID hw1) old = Some hw1 ∧
  about (Assignment_ID hw1) (assignment_events order_forward old new) = [added_of hw1] ∧
  compareAssignments_changes order_forward old new =
    ["New assignment added: 'HW1' in class Math with grade 90%"].
Proof. split_and!; by_evaluation. Qed.

(** C9, amended.  Take an id that both collections have, every new record
    with that id carrying the grade of the old record in the index (the last
    old record with the id).  Whatever the names and class names are, the
    class diff has no event about the id, and the assignment diff has none of
    a changed grade and none of a removal: its events about the id are the
    additions of the new records with that id after the first, so it has no
    event about the id when the new ids are distinct. *)
Theorem equal_grade_no_event (ord : MapOrder)
    (old new : list Assignment) (o n : Assignment)
    (oldc newc : list Class) (oc nc : Class) :
  n ∈ new →
  last_assignment (Assignment_ID n) old = Some o →
  (∀ x, x ∈ new → Assignment_ID x = Assignment_ID n →
        Assignment_Grade x = Assignment_Grade o) →
  nc ∈ newc →
  last_class (Class_ID nc) oldc = Some oc →
  (∀ x, x ∈ newc → Class_ID x = Class_ID nc → Class_Grade x = Class_Grade oc) →
  about (Assignment_ID n) (assignment_events ord old new) =
    map added_of (tail (filter (λ x, Assignment_ID x = Assignment_ID n) new))
  ∧ of_kind GradeChanged (about (Assignment_ID n) (assignment_events ord old new)) = []
  ∧ of_kind Removed (about (Assignment_ID n) (assignment_events ord old new)) = []
  ∧ (NoDup (map Assignment_ID new) →
     about (Assignment_ID n) (assignment_events ord old new) = [])
  ∧ about (Class_ID nc) (class_events oldc newc) = []
  ∧ compareAssignments_changes ord old new =
      map assignment_msg (assignment_events ord old new)
  ∧ Some <$> compareGrades_changes oldc newc = class_msg <$> class_events oldc newc.
Proof.
  intros Hn Ho Hgrade Hnc Hoc Hgradec.
  assert (about (Assignment_ID n) (assignment_events ord old new) =
            map added_of (tail (filter (λ x, Assignment_ID x = Assignment_ID n) new)))
    as Habout.
  { rewrite about_assignment_events.
    destruct (filter (λ x, Assignment_ID x = Assignment_ID n) new) as [|x later] eqn:E.
    - exfalso. by apply (filter_nil_not_elem_of _ _ n E).
    - assert (x ∈ filter (λ x, Assignment_ID x = Assignment_ID n) new) as Hx
        by (rewrite E; apply list_elem_of_here).
      apply list_elem_of_filter in Hx as [Hid Hx].
      unfold assignment_event. rewrite oldAssignmentMap_lookup, Hid, Ho.
      by rewrite bool_decide_eq_false_2
        by (intros H; apply H; symmetry; by apply Hgrade). }
  split_and!.
  - exact Habout.
  - rewrite Habout. apply filter_none.
    intros e (x & -> & _)%list_elem_of_fmap. done.
  - rewrite Habout. apply filter_none.
    intros e (x & -> & _)%list_elem_of_fmap. done.
  - intros Hnd. by rewrite Habout, filter_id_NoDup.
  - rewrite about_class_events. apply flat_map_nil'.
    intros c [Hid Hc]%list_elem_of_filter. unfold class_event.
    rewrite oldGrades_lookup, Hid, Hoc. simpl.
    by rewrite bool_decide_eq_false_2
      by (intros H; apply H; symmetry; by apply Hgradec).
  - apply compareAssignments_changes_events.
  - apply compareGrades_changes_events.
Qed.

Lemma equal_grade_no_event_witness :
  about 1
    (assignment_events order_forward [hw1; hw2]
       [mkAssignment 1 "Homework one" "90%" 12 "Algebra"; hw2]) = []
  ∧ about 10 (class_events [math_B] [mkClass 10 "Mathematics" "B"; art_C]) = [].
Proof.
  pose (n := mkAssignment 1 "Homework one" "90%" 12 "Algebra").
  pose (nc := mkClass 10 "Mathematics" "B").
  assert (n ∈ [n; hw2]) as H1 by apply list_elem_of_here.
  assert (last_assignment (Assignment_ID n) [hw1; hw2] = Some hw1) as H2 by by_evaluation.
  assert (∀ x, x ∈ [n; hw2] → Assignment_ID x = Assignment_ID n →
               Assignment_Grade x = Assignment_Grade hw1) as H3.
  { intros x [->| ->%list_elem_of_singleton]%elem_of_cons; [done|]. by_evaluation. }
  assert (nc ∈ [nc; art_C]) as H4 by apply list_elem_of_here.
  assert (last_class (Class_ID nc) [math_B] = Some math_B) as H5 by by_evaluation.
  assert (∀ x, x ∈ [nc; art_C] → Class_ID x = Class_ID nc →
               Class_Grade x = Class_Grade math_B) as H6.
  { intros x [->| ->%list_elem_of_singleton]%elem_of_cons; [done|]. by_evaluation. }
  assert (NoDup (map Assignment_ID [n; hw2])) as Hnd by by_evaluation.
  destruct (equal_grade_no_event order_forward [hw1; hw2] [n; hw2] hw1 n
              [math_B] [nc; art_C] math_B nc H1 H2 H3 H4 H5 H6)
    as (_ & _ & _ & Ha & Hc & _).
  split; [exact (Ha Hnd) | exact Hc].
Defined.

(** ** Old collections with repeated ids *)

Lemma about_assignment_length (ord : MapOrder) (old new : list Assignment) (i : Z) :
  NoDup (map Assignment_ID new) →
  (length (about i (assignment_events ord old new)) ≤ 1)%nat.
Proof.
  intros Hnd. destruct (decide (i ∈ map Assignment_ID new)) as [Hi|Hi].
  - apply list_elem_of_fmap in Hi as (n & -> & Hn).
    rewrite about_new_assignment by done. apply assignment_event_length.
  - rewrite about_old_assignment by done.
    destruct (last_assignment i old); simpl; lia.
Qed.

Lemma about_class_length (old new : list Class) (i : Z) :
  NoDup (map Class_ID new) →
  (length (about i (class_events old new)) ≤ 1)%nat.
Proof.
  intros Hnd. destruct (decide (i ∈ map Class_ID new)) as [Hi|Hi].
  - apply list_elem_of_fmap in Hi as (c & -> & Hc).
    rewrite about_new_class by done. apply class_event_length.
  - rewrite about_old_class by done. simpl. lia.
Qed.

Lemma flat_map_length_le {A B : Type} (f : A → list B) (l : list A) :
  (∀ x, length (f x) ≤ 1)%nat → (length (flat_map f l) ≤ length l)%nat.
Proof.
  intros Hf. induction l as [|x l IH]; [done|].
  simpl. rewrite length_app. specialize (Hf x). lia.
Qed.

(** C10, as stated, fails when new records repeat the id: the old index
    holds the last old record of id 10 (grade C), and each of the two new
    records with that id is compared with it, which gives two events about
    one old id. *)
Lemma repeated_new_ids_two_events :
  let old := [math_B; mkClass 10 "Math" "C"] in
  let new := [mkClass 10 "Math" "A"; mkClass 10 "Math" "A-"] in
  oldGrades old !! 10 = Some "C" ∧
  length (about 10 (class_events old new)) = 2%nat ∧
  compareGrades_changes old new =
    ["Grade changed for Math: C -> A"; "Grade changed for Math: C -> A-"].
Proof. split_and!; by_evaluation. Qed.

(** C10, amended.  The old collections may repeat ids.  The old index holds
    for each id the last old record with that id (for classes, its grade).
    In the assignment diff the first new record with the id is compared with
    that last record, every later new record with the id is reported as
    added, and an id that no new record has is reported removed with the name
    and class name of that last record.  In the class diff every new record
    with the id is compared with the last old grade.  So at most one event is
    about an id that at most one new record has, and in general at most one
    event for each new record with the id. *)
Theorem repeated_old_ids_last_wins (ord : MapOrder)
    (old new : list Assignment) (oldc newc : list Class) :
  (∀ i, oldAssignmentMap old !! i = last_assignment i old)
  ∧ (∀ i, oldGrades oldc !! i = Class_Grade <$> last_class i oldc)
  ∧ (∀ i o, last_assignment i old = Some o →
       about i (assignment_events ord old new) =
         match filter (λ n, Assignment_ID n = i) new with
         | [] => [removed_of o]
         | n :: later =>
             (if bool_decide (Assignment_Grade o ≠ Assignment_Grade n)
              then [changed_of o n] else [])
             ++ map added_of later
         end)
  ∧ (∀ i o, last_class i oldc = Some o →
       about i (class_events oldc newc) =
         flat_map (λ c, if bool_decide (Class_Grade o ≠ Class_Grade c)
                        then [class_changed_of (Class_Grade o) c] else [])
           (filter (λ c, Class_ID c = i) newc))
  ∧ (∀ i, (length (about i (assignment_events ord old new))
             ≤ Nat.max 1 (length (filter (λ n, Assignment_ID n = i) new)))%nat)
  ∧ (∀ i, (length (about i (class_events oldc newc))
             ≤ length (filter (λ c, Class_ID c = i) newc))%nat)
  ∧ (∀ i, (length (filter (λ n, Assignment_ID n = i) new) ≤ 1)%nat →
          (length (about i (assignment_events ord old new)) ≤ 1)%nat)
  ∧ (∀ i, (length (filter (λ c, Class_ID c = i) newc) ≤ 1)%nat →
          (length (about i (class_events oldc newc)) ≤ 1)%nat)
  ∧ (NoDup (map Assignment_ID new) →
     ∀ i, (length (about i (assignment_events ord old new)) ≤ 1)%nat)
  ∧ (NoDup (map Class_ID newc) →
     ∀ i, (length (about i (class_events oldc newc)) ≤ 1)%nat)
  ∧ compareAssignments_changes ord old new =
      map assignment_msg (assignment_events ord old new)
  ∧ Some <$> compareGrades_changes oldc newc = class_msg <$> class_events oldc newc.
Proof.
  assert (∀ i, (length (about i (assignment_events ord old new))
                  ≤ Nat.max 1 (length (filter (λ n, Assignment_ID n = i) new)))%nat)
    as Hbound.
  { intros i. rewrite about_assignment_events.
    destruct (filter (λ n, Assignment_ID n = i) new) as [|n later].
    - destruct (last_assignment i old); simpl; lia.
    - rewrite length_app, length_map. simpl.
      pose proof (assignment_event_length (oldAssignmentMap old) n). lia. }
  assert (∀ i, (length (about i (class_events oldc newc))
                  ≤ length (filter (λ c, Class_ID c = i) newc))%nat) as Hboundc.
  { intros i. rewrite about_class_events.
    apply flat_map_length_le, class_event_length. }
  split_and!.
  - apply oldAssignmentMap_lookup.
  - apply oldGrades_lookup.
  - intros i o Ho. rewrite about_assignment_events, Ho.
    destruct (filter (λ n, Assignment_ID n = i) new) as [|n later] eqn:E; [done|].
    assert (n ∈ filter (λ n, Assignment_ID n = i) new) as Hin
      by (rewrite E; apply list_elem_of_here).
    apply list_elem_of_filter in Hin as [Hid _].
    unfold assignment_event. by rewrite oldAssignmentMap_lookup, Hid, Ho.
  - intros i o Ho. rewrite about_class_events.
    apply flat_map_ext'. intros c [Hid _]%list_elem_of_filter.
    unfold class_event. by rewrite oldGrades_lookup, Hid, Ho.
  - exact Hbound.
  - exact Hboundc.
  - intros i Hi. specialize (Hbound i). lia.
  - intros i Hi. specialize (Hboundc i). lia.
  - intros Hnd i. by apply about_assignment_length.
  - intros Hnd i. by apply about_class_length.
  - apply compareAssignments_changes_events.
  - apply compareGrades_changes_events.
Qed.

Lemma repeated_old_ids_last_wins_witness :
  let old := [hw1; mkAssignment 1 "HW1 (regraded)" "95%" 10 "Math"; hw2] in
  let new := [mkAssignment 1 "HW1" "100%" 10 "Math";
              mkAssignment 1 "HW1 again" "100%" 10 "Math"] in
  oldAssignmentMap old !! 1 = Some (mkAssignment 1 "HW1 (regraded)" "95%" 10 "Math")
  ∧ map assignment_msg (about 1 (assignment_events order_forward old new)) =
      ["Grade changed for assignment 'HW1' in class Math: 95% -> 100%";
       "New assignment added: 'HW1 again' in class Math with grade 100%"]
  ∧ map assignment_msg (about 2 (assignment_events order_forward old new)) =
      ["Assignment removed: 'HW2' from class Math"].
Proof.
  intros old new.
  destruct (repeated_old_ids_last_wins order_forward old new
              [math_B; mkClass 10 "Math" "C"] [mkClass 10 "Math" "A"])
    as (Hindex & _ & Habout & _).
  split_and!.
  - rewrite Hindex. by_evaluation.
  - rewrite (Habout 1 (mkAssignment 1 "HW1 (regraded)" "95%" 10 "Math"));
      [reflexivity | by_evaluation].
  - rewrite (Habout 2 hw2); [reflexivity | by_evaluation].
Defined.

(** ** Term window *)

Lemma minimum_min (a x : Z) (l : list Z) :
  minimum (Z.min a x) l = Z.min a (minimum x l).
Proof. induction l as [|b l IH]; simpl; [done|]. rewrite IH. lia. Qed.

Lemma maximum_max (a x : Z) (l : list Z) :
  maximum (Z.max a x) l = Z.max a (maximum x l).
Proof. induction l as [|b l IH]; simpl; [done|]. rewrite IH. lia. Qed.

Lemma minimum_lower (x : Z) (l : list Z) (y : Z) :
  y ∈ x :: l → minimum x l ≤ y.
Proof.
  induction l as [|b l IH]; simpl.
  - intros ->%list_elem_of_singleton. lia.
  - intros [->|[->|Hy]%elem_of_cons]%elem_of_cons.
    + specialize (IH (list_elem_of_here _ _)). lia.
    + lia.
    + specialize (IH (list_elem_of_further _ _ _ Hy)). lia.
Qed.

Lemma maximum_upper (x : Z) (l : list Z) (y : Z) :
  y ∈ x :: l → y ≤ maximum x l.
Proof.
  induction l as [|b l IH]; simpl.
  - intros ->%list_elem_of_singleton. lia.
  - intros [->|[->|Hy]%elem_of_cons]%elem_of_cons.
    + specialize (IH (list_elem_of_here _ _)). lia.
    + lia.
    + specialize (IH (list_elem_of_further _ _ _ Hy)). lia.
Qed.

Lemma minimum_attained (x : Z) (l : list Z) : minimum x l ∈ x :: l.
Proof.
  induction l as [|b l IH]; simpl; [apply list_elem_of_here|].
  destruct (Z.min_spec b (minimum x l)) as [[_ ->]|[_ ->]].
  - apply list_elem_of_further, list_elem_of_here.
  - apply elem_of_cons in IH as [->|IH]; [apply list_elem_of_here|].
    by do 2 apply list_elem_of_further.
Qed.

Lemma maximum_attained (x : Z) (l : list Z) : maximum x l ∈ x :: l.
Proof.
  induction l as [|b l IH]; simpl; [apply list_elem_of_here|].
  destruct (Z.max_spec b (maximum x l)) as [[_ ->]|[_ ->]].
  - apply elem_of_cons in IH as [->|IH]; [apply list_elem_of_here|].
    by do 2 apply list_elem_of_further.
  - apply list_elem_of_further, list_elem_of_here.
Qed.

(** One turn of the loop under a frozen clock: an active term widens the
    window, any other term leaves it as it is. *)
Lemma term_step_frozen (now : Z) (st : TermState) (t : ReportingTerm) :
  let st' := term_step (frozen now) st t in
  if active now t then
    allowedTerms st' = <[ReportingTerm_Id t := true]> (allowedTerms st)
    ∧ termBeginDate st' = Z.min (StartDate t) (termBeginDate st)
    ∧ termDueDate st' = Z.max (EndDate t) (termDueDate st)
  else
    allowedTerms st' = allowedTerms st
    ∧ termBeginDate st' = termBeginDate st
    ∧ termDueDate st' = termDueDate st.
Proof.
  unfold term_step, active, frozen.
  destruct (bool_decide (StartDate t < now)); simpl; [|done].
  destruct (bool_decide (now < EndDate t)); simpl; [|done].
  destruct (String.prefix "Q" (Title t)); simpl; [|done].
  split_and!; [done|..]; case_bool_decide; lia.
Qed.

Lemma term_window_frozen (now : Z) (terms : list ReportingTerm) (st : TermState) :
  let st' := foldl (term_step (frozen now)) st terms in
  termBeginDate st' = minimum (termBeginDate st) (map StartDate (active_terms now terms))
  ∧ termDueDate st' = maximum (termDueDate st) (map EndDate (active_terms now terms))
  ∧ allowedTerms st' =
      foldl (λ m t, <[ReportingTerm_Id t := true]> m) (allowedTerms st)
        (active_terms now terms).
Proof.
  revert st. induction terms as [|t terms IH]; intros st; [done|].
  simpl. specialize (IH (term_step (frozen now) st t)). simpl in IH.
  destruct IH as (IHb & IHd & IHa). rewrite IHb, IHd, IHa.
  pose proof (term_step_frozen now st t) as Hstep. simpl in Hstep.
  unfold active_terms. destruct (active now t) eqn:E.
  - destruct Hstep as (-> & -> & ->).
    rewrite filter_cons_True by done. simpl.
    by rewrite minimum_min, maximum_max.
  - destruct Hstep as (-> & -> & ->).
    rewrite filter_cons_False by congruence. done.
Qed.

Lemma active_bounds (now : Z) (t : ReportingTerm) :
  active now t = true → StartDate t < now < EndDate t.
Proof.
  unfold active. intros H.
  apply andb_prop in H as [H _]. apply andb_prop in H as [H1 H2].
  apply bool_decide_eq_true in H1, H2. lia.
Qed.

(** C5, as stated, fails when the active term starts after the first day of
    2100: the lower bound of the window stays at that day, the start value of
    the loop, which is earlier than the start of the only active term. *)
Lemma window_of_2100_term_starts_early :
  let now := day_2100_02_01 in
  let terms := [term_Q1_2100] in
  active_terms now terms = [term_Q1_2100]
  ∧ termBeginDate (term_window (frozen now) terms) = date_2100_01_01
  ∧ termBeginDate (term_window (frozen now) terms)
      ≠ minimum (StartDate term_Q1_2100) [].
Proof. split_and!; by_evaluation. Qed.

(** C5, amended.  With the active terms [t :: rest] at [now], the window runs
    from the least of their start dates, or from the first day of 2100 when
    that is earlier, to the greatest of their end dates, or to the first day
    of 2000 when that is later; it covers every active term, not just the
    first.  When [now] lies between the first day of 2000 and the first day
    of 2100, the window is from the least start date to the greatest end
    date of the active terms. *)
Theorem window_covers_active_terms (now : Z) (terms : list ReportingTerm)
    (t : ReportingTerm) (rest : list ReportingTerm) :
  active_terms now terms = t :: rest →
  let st := term_window (frozen now) terms in
  termBeginDate st = Z.min date_2100_01_01 (minimum (StartDate t) (map StartDate rest))
  ∧ termDueDate st = Z.max date_2000_01_01 (maximum (EndDate t) (map EndDate rest))
  ∧ (∀ a, a ∈ active_terms now terms →
       termBeginDate st ≤ StartDate a ∧ EndDate a ≤ termDueDate st)
  ∧ (date_2000_01_01 ≤ now ≤ date_2100_01_01 →
       termBeginDate st = minimum (StartDate t) (map StartDate rest)
       ∧ termDueDate st = maximum (EndDate t) (map EndDate rest)).
Proof.
  intros Hactive st.
  destruct (term_window_frozen now terms term_init) as (Hb & Hd & _).
  fold (term_window (frozen now) terms) in Hb, Hd. fold st in Hb, Hd.
  rewrite Hactive in Hb, Hd. simpl in Hb, Hd.
  assert (termBeginDate st =
            Z.min date_2100_01_01 (minimum (StartDate t) (map StartDate rest))) as Hb'.
  { rewrite Hb, <- !minimum_min. f_equal. lia. }
  assert (termDueDate st =
            Z.max date_2000_01_01 (maximum (EndDate t) (map EndDate rest))) as Hd'.
  { rewrite Hd, <- !maximum_max. f_equal. lia. }
  split_and!; [done..| |].
  - intros a Ha. rewrite Hactive in Ha.
    pose proof (minimum_lower (StartDate t) (map StartDate rest) (StartDate a)
                  (list_elem_of_fmap_2 StartDate (t :: rest) a Ha)).
    pose proof (maximum_upper (EndDate t) (map EndDate rest) (EndDate a)
                  (list_elem_of_fmap_2 EndDate (t :: rest) a Ha)).
    lia.
  - intros Hnow.
    assert (t ∈ active_terms now terms) as Ht by (rewrite Hactive; apply list_elem_of_here).
    apply list_elem_of_filter in Ht as [Ht _]. apply active_bounds in Ht.
    pose proof (minimum_lower (StartDate t) (map StartDate rest) (StartDate t)
                  (list_elem_of_here _ _)).
    pose proof (maximum_upper (EndDate t) (map EndDate rest) (EndDate t)
                  (list_elem_of_here _ _)).
    lia.
Qed.

Lemma window_covers_active_terms_witness :
  active_terms day_2024_02_01 [term_Q1; term_S1] = [term_Q1]
  ∧ date_2000_01_01 ≤ day_2024_02_01 ≤ date_2100_01_01
  ∧ termBeginDate (term_window (frozen day_2024_02_01) [term_Q1; term_S1]) = day_2024_01_01
  ∧ termDueDate (term_window (frozen day_2024_02_01) [term_Q1; term_S1]) = day_2024_03_15.
Proof.
  assert (active_terms day_2024_02_01 [term_Q1; term_S1] = [term_Q1]) as Hactive
    by by_evaluation.
  assert (date_2000_01_01 ≤ day_2024_02_01 ≤ date_2100_01_01) as Hnow by by_evaluation.
  split_and!; [done..| |];
    destruct (window_covers_active_terms day_2024_02_01 [term_Q1; term_S1]
                term_Q1 [] Hactive) as (_ & _ & _ & Hwin);
    destruct (Hwin Hnow) as [Hb Hd]; [exact Hb | exact Hd].
Defined.

(** ** No active term *)

Lemma newAssignments_of_outside (termBegin termDue : Z) (scoreMap : gmap Z string)
    (newClasses : list Class) (assignments : list RawAssignment)
    (newAssignments : list Assignment) :
  (∀ a, in_window termBegin termDue a = false) →
  foldl (λ newAssignments assignment,
           if in_window termBegin termDue assignment then
             match scoreMap !! RawAssignment_Id assignment with
             | None => newAssignments
             | Some _ =>
                 newAssignments ++ [project_assignment scoreMap newClasses assignment]
             end
           else newAssignments)
        newAssignments assignments = newAssignments.
Proof.
  intros Hout. induction assignments as [|a assignments IH]; [done|].
  simpl. by rewrite Hout.
Qed.

(** C6.  When no reporting term is active at [now], the window keeps its
    start values: it begins on the first day of 2100 and ends on the first
    day of 2000, so its lower bound is later than its upper bound, no due date
    lies strictly inside it, and no assignment is projected. *)
Theorem no_active_term_no_assignment (now : Z) (student : Student) :
  active_terms now (ReportingTerms student) = [] →
  let st := term_window (frozen now) (ReportingTerms student) in
  termBeginDate st = date_2100_01_01
  ∧ termDueDate st = date_2000_01_01
  ∧ termDueDate st < termBeginDate st
  ∧ (∀ a, in_window (termBeginDate st) (termDueDate st) a = false)
  ∧ allowedTerms st = ∅
  ∧ projected_assignments (frozen now) student = [].
Proof.
  intros Hnone st.
  destruct (term_window_frozen now (ReportingTerms student) term_init) as (Hb & Hd & Ha).
  fold (term_window (frozen now) (ReportingTerms student)) in Hb, Hd, Ha.
  fold st in Hb, Hd, Ha. rewrite Hnone in Hb, Hd, Ha. simpl in Hb, Hd, Ha.
  assert (∀ a, in_window (termBeginDate st) (termDueDate st) a = false) as Hout.
  { intros a. unfold in_window. rewrite Hb, Hd.
    apply andb_false_iff.
    destruct (decide (DueDate a < date_2000_01_01)) as [Hlt|Hge].
    - right. apply bool_decide_eq_false. unfold date_2100_01_01, date_2000_01_01 in *.
      unfold nanosecond_per_second in *. lia.
    - left. by apply bool_decide_eq_false. }
  split_and!; [done..| | done | done |].
  - rewrite Hb, Hd. by_evaluation.
  - unfold projected_assignments, newAssignments_of.
    fold st. by apply newAssignments_of_outside.
Qed.

Lemma no_active_term_no_assignment_witness :
  let student :=
    {| Sections := Sections sample_student;
       ReportingTerms := [term_S1];
       FinalGrades := FinalGrades sample_student;
       AssignmentScores := AssignmentScores sample_student;
       Assignments := Assignments sample_student |} in
  active_terms day_2024_02_01 (ReportingTerms student) = []
  ∧ projected_assignments (frozen day_2024_02_01) student = [].
Proof.
  intros student.
  assert (active_terms day_2024_02_01 (ReportingTerms student) = []) as Hnone
    by by_evaluation.
  split; [done|].
  by destruct (no_active_term_no_assignment day_2024_02_01 student Hnone)
    as (_ & _ & _ & _ & _ & Hempty).
Defined.

(** ** Projection of the assignments *)

Lemma assignmentScoreMap_snoc (scores : list AssignmentScore) (s : AssignmentScore) :
  assignmentScoreMap (scores ++ [s]) =
    if bool_decide (Score s ≠ "")
    then <[AssignmentId s := Score s +:+ "%"]> (assignmentScoreMap scores)
    else assignmentScoreMap scores.
Proof. unfold assignmentScoreMap. by rewrite foldl_app. Qed.

(** The score map holds, for each assignment id, the last score given for it
    that is not empty, followed by a percent sign. *)
Lemma assignmentScoreMap_lookup (scores : list AssignmentScore) (i : Z) :
  assignmentScoreMap scores !! i =
    (λ s, Score s +:+ "%") <$> last (filter (scored i) scores).
Proof.
  induction scores as [|s scores IH] using rev_ind; [done|].
  rewrite assignmentScoreMap_snoc, filter_app.
  destruct (decide (scored i s)) as [[Hid Hscore]|Hno].
  - rewrite (filter_cons_True _ s []) by done.
    rewrite filter_nil, last_snoc, bool_decide_eq_true_2 by done.
    subst i. apply lookup_insert_eq.
  - rewrite (filter_cons_False _ s []) by done.
    rewrite filter_nil, app_nil_r, <- IH.
    case_bool_decide as Hscore; [|done].
    apply lookup_insert_ne. intros Hid. apply Hno. by split.
Qed.

Lemma className_of_head (newClasses : list Class) (sectionid : Z) :
  className_of newClasses sectionid =
    match head (filter (λ c, Class_ID c = sectionid) newClasses) with
    | Some c => Class_Name c
    | None => ""
    end.
Proof.
  induction newClasses as [|c newClasses IH]; [done|].
  simpl. case_bool_decide as Hid.
  - by rewrite filter_cons_True.
  - by rewrite filter_cons_False.
Qed.

Lemma newAssignments_loop (termBegin termDue : Z) (scoreMap : gmap Z string)
    (newClasses : list Class) (assignments : list RawAssignment)
    (newAssignments : list Assignment) :
  foldl (λ newAssignments assignment,
           if in_window termBegin termDue assignment then
             match scoreMap !! RawAssignment_Id assignment with
             | None => newAssignments
             | Some _ =>
                 newAssignments ++ [project_assignment scoreMap newClasses assignment]
             end
           else newAssignments)
        newAssignments assignments =
    newAssignments
    ++ map (project_assignment scoreMap newClasses)
         (filter (projectable termBegin termDue scoreMap) assignments).
Proof.
  revert newAssignments.
  induction assignments as [|a assignments IH]; intros newAssignments.
  - simpl. by rewrite app_nil_r.
  - simpl. rewrite IH. unfold in_window.
    destruct (decide (projectable termBegin termDue scoreMap a))
      as [(Hb & Hd & [g Hg])|Hno].
    + rewrite filter_cons_True by (split_and!; eauto).
      rewrite !bool_decide_eq_true_2, Hg by done. simpl.
      by rewrite <- app_assoc.
    + rewrite filter_cons_False by done.
      case_bool_decide as Hd; [|done]. case_bool_decide as Hb; [|done]. simpl.
      destruct (scoreMap !! RawAssignment_Id a) as [g|] eqn:Hg; [|done].
      exfalso. apply Hno. split_and!; eauto.
Qed.

Lemma newAssignments_of_filter (termBegin termDue : Z) (scoreMap : gmap Z string)
    (newClasses : list Class) (assignments : list RawAssignment) :
  newAssignments_of termBegin termDue scoreMap newClasses assignments =
    map (project_assignment scoreMap newClasses)
      (filter (projectable termBegin termDue scoreMap) assignments).
Proof. apply (newAssignments_loop _ _ _ _ _ []). Qed.

(** C4.  The projected assignments are the raw assignments, in their order,
    whose due date is strictly inside the window and whose id has an entry in
    the score map.  The score map has an entry for an id exactly when some
    score given for it is not empty, and then holds the last such score with
    a percent sign appended; that entry is the grade of the projected record.
    Its class name is the name of the first projected class with the section
    id, or the empty string.  Hence a raw assignment all of whose scores are
    empty gives no projected record, and no projected grade is empty. *)
Theorem projected_assignments_spec (clock : nat → Z) (student : Student) :
  let st := term_window clock (ReportingTerms student) in
  let scoreMap := assignmentScoreMap (AssignmentScores student) in
  let classes := projected_classes clock student in
  projected_assignments clock student =
    map (project_assignment scoreMap classes)
      (filter (λ a, termBeginDate st < DueDate a ∧ DueDate a < termDueDate st
                    ∧ is_Some (scoreMap !! RawAssignment_Id a))
         (Assignments student))
  ∧ (∀ i, scoreMap !! i =
       (λ s, Score s +:+ "%")
         <$> last (filter (λ s, AssignmentId s = i ∧ Score s ≠ "")
                     (AssignmentScores student)))
  ∧ (∀ i, is_Some (scoreMap !! i) ↔
       ∃ s, s ∈ AssignmentScores student ∧ AssignmentId s = i ∧ Score s ≠ "")
  ∧ (∀ a g, scoreMap !! RawAssignment_Id a = Some g →
       Assignment_Grade (project_assignment scoreMap classes a) = g
       ∧ ∃ s, s ∈ AssignmentScores student ∧ AssignmentId s = RawAssignment_Id a
              ∧ Score s ≠ "" ∧ g = Score s +:+ "%")
  ∧ (∀ a, Assignment_ClassName (project_assignment scoreMap classes a) =
       match head (filter (λ c, Class_ID c = RawAssignment_Sectionid a) classes) with
       | Some c => Class_Name c
       | None => ""
       end)
  ∧ (∀ i r, (∀ s, s ∈ AssignmentScores student → AssignmentId s = i → Score s = "") →
       r ∈ projected_assignments clock student → Assignment_ID r ≠ i)
  ∧ (∀ r, r ∈ projected_assignments clock student → Assignment_Grade r ≠ "").
Proof.
  intros st scoreMap classes.
  assert (projected_assignments clock student =
            map (project_assignment scoreMap classes)
              (filter (projectable (termBeginDate st) (termDueDate st) scoreMap)
                 (Assignments student))) as Hproj
    by apply newAssignments_of_filter.
  assert (∀ i g, scoreMap !! i = Some g →
            ∃ s, s ∈ AssignmentScores student ∧ AssignmentId s = i
                 ∧ Score s ≠ "" ∧ g = Score s +:+ "%") as Hentry.
  { intros i g Hg. unfold scoreMap in Hg. rewrite assignmentScoreMap_lookup in Hg.
    destruct (last (filter (scored i) (AssignmentScores student))) as [s|] eqn:Hlast;
      [|done].
    injection Hg as <-. apply last_Some_elem_of, list_elem_of_filter in Hlast.
    destruct Hlast as [[Hid Hscore] Hs]. by exists s. }
  assert (∀ r, r ∈ projected_assignments clock student →
            ∃ a, r = project_assignment scoreMap classes a
                 ∧ is_Some (scoreMap !! RawAssignment_Id a)) as Hmember.
  { intros r Hr. rewrite Hproj in Hr.
    apply list_elem_of_fmap in Hr as (a & -> & Ha).
    apply list_elem_of_filter in Ha as [(_ & _ & Hsome) _]. by exists a. }
  split_and!.
  - exact Hproj.
  - intros i. apply assignmentScoreMap_lookup.
  - intros i. split.
    + intros [g Hg]. destruct (Hentry i g Hg) as (s & ? & ? & ? & _). by exists s.
    + intros (s & Hs & Hid & Hscore). unfold scoreMap.
      rewrite assignmentScoreMap_lookup.
      destruct (last (filter (scored i) (AssignmentScores student))) eqn:Hlast; [eauto|].
      apply last_None in Hlast. exfalso.
      by apply (filter_nil_not_elem_of _ _ s Hlast).
  - intros a g Hg. split; [|by apply Hentry].
    simpl. by rewrite Hg.
  - intros a. apply className_of_head.
  - intros i r Hempty Hr Hid.
    destruct (Hmember r Hr) as (a & -> & [g Hg]). simpl in Hid. subst i.
    destruct (Hentry _ g Hg) as (s & Hs & Hsid & Hscore & _).
    by apply Hscore, Hempty.
  - intros r Hr.
    destruct (Hmember r Hr) as (a & -> & [g Hg]). simpl. rewrite Hg. simpl.
    destruct (Hentry _ g Hg) as (s & _ & _ & _ & ->).
    destruct (Score s); discriminate.
Qed.

Example projection_of_sample_student :
  projected_classes (frozen day_2024_02_01) sample_student = [mkClass 10 "Math" "B"]
  ∧ projected_assignments (frozen day_2024_02_01) sample_student =
      [mkAssignment 1 "HW1" "90%" 10 "Math"].
Proof. split; by_evaluation. Qed.

(** ** Notification *)

Lemma assignment_msg_nonempty (e : Event) : assignment_msg e ≠ "".
Proof. by destruct e as [[] ? ? ? ? ?]. Qed.

Lemma class_msg_nonempty (e : Event) (s : string) : class_msg e = Some s → s ≠ "".
Proof. destruct e as [[] ? ? ? ? ?]; intros [= <-]; done. Qed.

Lemma compareAssignments_changes_nonempty (ord : MapOrder)
    (old new : list Assignment) (s : string) :
  s ∈ compareAssignments_changes ord old new → s ≠ "".
Proof.
  rewrite compareAssignments_changes_events.
  intros (e & -> & _)%list_elem_of_fmap. apply assignment_msg_nonempty.
Qed.

Lemma compareGrades_changes_nonempty (old new : list Class) (s : string) :
  s ∈ compareGrades_changes old new → s ≠ "".
Proof.
  intros Hs. apply (list_elem_of_fmap_2 Some) in Hs.
  rewrite compareGrades_changes_events in Hs.
  apply list_elem_of_fmap in Hs as (e & Hmsg & _).
  symmetry in Hmsg. by apply class_msg_nonempty in Hmsg.
Qed.

Lemma concat_nonempty (sep s : string) (l : list string) :
  s ≠ "" → String.concat sep (s :: l) ≠ "".
Proof.
  intros Hs. destruct s as [|c s]; [done|].
  destruct l; simpl; discriminate.
Qed.

(** What the last statement of a diff does with changes none of which is
    empty. *)
Lemma notify_or_log_cases (http_Post : WebhookMessage → option string)
    (nothing : string) (changes : list string) :
  (∀ s, s ∈ changes → s ≠ "") →
  notify_or_log http_Post nothing changes =
    match changes with
    | [] => [LogInfo nothing]
    | _ =>
        let payload := {| Content := String.concat newline changes |} in
        [HttpPost discordWebhookURL payload; post_outcome http_Post payload]
    end.
Proof.
  intros Hne. unfold notify_or_log. destruct changes as [|s changes]; [done|].
  rewrite bool_decide_eq_true_2 by (simpl; lia).
  unfold sendDiscordNotification, post_outcome.
  rewrite bool_decide_eq_false_2
    by (apply concat_nonempty, Hne, list_elem_of_here).
  simpl. by destruct (http_Post _).
Qed.

Lemma notify_or_log_posts (http_Post : WebhookMessage → option string)
    (nothing : string) (changes : list string) :
  (∀ s, s ∈ changes → s ≠ "") →
  filter is_post (notify_or_log http_Post nothing changes) = message_for changes.
Proof.
  intros Hne. rewrite notify_or_log_cases by done.
  destruct changes as [|s changes]; [done|].
  unfold post_outcome. by destruct (http_Post _).
Qed.

Lemma warn_if_quiet (err : option string) (msg : string) :
  filter is_post (warn_if err msg) = [] ∧ filter is_write (warn_if err msg) = [].
Proof. by destruct err. Qed.

Lemma error_if_quiet (err : option string) (msg : string) :
  filter is_post (error_if err msg) = [].
Proof. by destruct err. Qed.

(** C7.  Each diff ends in one of two ways.  Without changes it hands nothing
    to the notifier and logs that there are no changes.  With changes it
    posts one message, the changes joined by newlines, followed by the line
    on the outcome of the post.  In a cycle that fetched the student record,
    the posts are the message for the class changes, if any, followed by the
    message for the assignment changes, if any: two messages, never one
    holding both. *)
Theorem changes_reported_per_kind (w : World) (disk : Disk) (student : Student)
    (ord : MapOrder) (post : WebhookMessage → option string)
    (oldc newc : list Class) (old new : list Assignment) :
  GetStudent w = Ok student →
  let class_changes := compareGrades_changes oldc newc in
  let assignment_changes := compareAssignments_changes ord old new in
  (class_changes = [] →
     compareGradesAndNotifyChanges post oldc newc = [LogInfo "No changes in Classes."])
  ∧ (class_changes ≠ [] →
       compareGradesAndNotifyChanges post oldc newc =
         [HttpPost discordWebhookURL {| Content := String.concat newline class_changes |};
          post_outcome post {| Content := String.concat newline class_changes |}])
  ∧ (assignment_changes = [] →
       compareAssignmentsAndNotifyChanges ord post old new =
         [LogInfo "No changes in Assignments."])
  ∧ (assignment_changes ≠ [] →
       compareAssignmentsAndNotifyChanges ord post old new =
         [HttpPost discordWebhookURL
            {| Content := String.concat newline assignment_changes |};
          post_outcome post {| Content := String.concat newline assignment_changes |}])
  ∧ filter is_post (fetchAndCompare w disk).2 =
      message_for
        (compareGrades_changes (loadBackupDataClasses (backup_classes disk)).1
           (projected_classes (clock_of w) student))
      ++ message_for
           (compareAssignments_changes (map_order w)
              (loadBackupDataAssignments (backup_assignments disk)).1
              (projected_assignments (clock_of w) student)).
Proof.
  intros Hfetch class_changes assignment_changes.
  pose proof (notify_or_log_cases post "No changes in Classes." class_changes
                (compareGrades_changes_nonempty oldc newc)) as Hc.
  pose proof (notify_or_log_cases post "No changes in Assignments." assignment_changes
                (compareAssignments_changes_nonempty ord old new)) as Ha.
  split_and!.
  - intros Hnil. unfold compareGradesAndNotifyChanges. fold class_changes.
    by rewrite Hc, Hnil.
  - intros Hsome. unfold compareGradesAndNotifyChanges. fold class_changes.
    rewrite Hc. by destruct class_changes.
  - intros Hnil. unfold compareAssignmentsAndNotifyChanges. fold assignment_changes.
    by rewrite Ha, Hnil.
  - intros Hsome. unfold compareAssignmentsAndNotifyChanges. fold assignment_changes.
    rewrite Ha. by destruct assignment_changes.
  - unfold fetchAndCompare. rewrite Hfetch.
    destruct (loadBackupDataClasses (backup_classes disk)) as [oldClasses err1].
    destruct (loadBackupDataAssignments (backup_assignments disk))
      as [oldAssignments err2].
    destruct (saveBackupDataClasses _ _) as [file1 werr1].
    destruct (saveBackupDataAssignments _ _) as [file2 werr2].
    cbn [snd fst]. rewrite !filter_app.
    rewrite (proj1 (warn_if_quiet err1 _)), (proj1 (warn_if_quiet err2 _)).
    rewrite !error_if_quiet. simpl.
    unfold compareGradesAndNotifyChanges, compareAssignmentsAndNotifyChanges.
    rewrite !notify_or_log_posts
      by (apply compareGrades_changes_nonempty
          || apply compareAssignments_changes_nonempty).
    by rewrite !app_nil_r.
Qed.

Lemma changes_reported_per_kind_witness :
  filter is_post (fetchAndCompare sample_world sample_disk).2 =
    [HttpPost discordWebhookURL {| Content := "New class added: Math with grade B" |};
     HttpPost discordWebhookURL
       {| Content := "Assignment removed: 'HW2' from class Math" |}].
Proof.
  assert (GetStudent sample_world = Ok sample_student) as Hfetch by reflexivity.
  destruct (changes_reported_per_kind sample_world sample_disk sample_student
              order_forward (λ _, None) [] [] [] [] Hfetch) as (_ & _ & _ & _ & Hposts).
  rewrite Hposts. by_evaluation.
Defined.

(** ** Failure of the fetch *)

(** C8.  When the student record cannot be fetched, the cycle ends after the
    error line: both backup files are as they were, nothing is posted, no
    file is written, and the actions hold no trace of either diff. *)
Theorem fetch_failure_keeps_snapshots (w : World) (disk : Disk) (err : string) :
  GetStudent w = Err err →
  (fetchAndCompare w disk).1 = disk
  ∧ (fetchAndCompare w disk).2 =
      [LogInfo "Starting data fetch and comparison..."]
      ++ warn_if (loadBackupDataClasses (backup_classes disk)).2
           "Could not load old classes, possibly first run."
      ++ warn_if (loadBackupDataAssignments (backup_assignments disk)).2
           "Could not load old assignments, possibly first run."
      ++ [LogError ("Failed to get student data: " +:+ err)]
  ∧ filter is_post (fetchAndCompare w disk).2 = []
  ∧ filter is_write (fetchAndCompare w disk).2 = []
  ∧ (LogInfo "No changes in Classes." ∉ (fetchAndCompare w disk).2)
  ∧ (LogInfo "No changes in Assignments." ∉ (fetchAndCompare w disk).2).
Proof.
  intros Hfetch. unfold fetchAndCompare. rewrite Hfetch.
  destruct (loadBackupDataClasses (backup_classes disk)) as [oldClasses err1].
  destruct (loadBackupDataAssignments (backup_assignments disk))
    as [oldAssignments err2].
  cbn [fst snd].
  destruct err1, err2; simpl; split_and!; try reflexivity;
    intros H; repeat (apply elem_of_cons in H as [H|H]; [discriminate|]);
    by inversion H.
Qed.

Lemma fetch_failure_keeps_snapshots_witness :
  GetStudent offline_world = Err "connection refused"
  ∧ fetchAndCompare offline_world sample_disk =
      (sample_disk,
       [LogInfo "Starting data fetch and comparison...";
        LogWarning "Could not load old classes, possibly first run.";
        LogError "Failed to get student data: connection refused"]).
Proof.
  assert (GetStudent offline_world = Err "connection refused") as Hfetch by reflexivity.
  split; [done|].
  destruct (fetch_failure_keeps_snapshots offline_world sample_disk
              "connection refused" Hfetch) as (Hdisk & Htrace & _).
  rewrite (surjective_pairing (fetchAndCompare offline_world sample_disk)).
  rewrite Hdisk, Htrace. reflexivity.
Defined.

(** * Further properties of the code *)

(** ** Projection of the classes *)

Lemma newClasses_loop (allowed : gmap Z bool) (ids : gmap Z string)
    (finalGrades : list FinalGrade) (newClasses : list Class) :
  foldl (λ newClasses finalGrade,
           if is_allowed allowed (ReportingTermId finalGrade)
           then newClasses ++ [ {| Class_ID := FinalGrade_Sectionid finalGrade;
                                   Class_Name := title_of ids (FinalGrade_Sectionid finalGrade);
                                   Class_Grade := FinalGrade_Grade finalGrade |} ]
           else newClasses)
        newClasses finalGrades =
    newClasses ++ map (class_of ids) (filter (graded_in allowed) finalGrades).
Proof.
  revert newClasses. induction finalGrades as [|fg finalGrades IH]; intros newClasses.
  - simpl. by rewrite app_nil_r.
  - simpl. rewrite IH.
    destruct (is_allowed allowed (ReportingTermId fg)) eqn:E.
    + rewrite filter_cons_True by done. simpl. by rewrite <- app_assoc.
    + rewrite filter_cons_False; [done|]. unfold graded_in. congruence.
Qed.

Lemma newClasses_of_filter (allowed : gmap Z bool) (ids : gmap Z string)
    (finalGrades : list FinalGrade) :
  newClasses_of allowed ids finalGrades =
    map (class_of ids) (filter (graded_in allowed) finalGrades).
Proof. apply (newClasses_loop _ _ _ []). Qed.

Lemma idMap_snoc (sections : list Section_) (course : Section_) :
  idMap (sections ++ [course]) =
    <[Section_Id course := SchoolCourseTitle course]> (idMap sections).
Proof. unfold idMap. by rewrite foldl_app. Qed.

Lemma idMap_lookup (sections : list Section_) (i : Z) :
  idMap sections !! i =
    SchoolCourseTitle <$> last (filter (λ course, Section_Id course = i) sections).
Proof.
  induction sections as [|course sections IH] using rev_ind; [done|].
  rewrite idMap_snoc, filter_app.
  destruct (decide (Section_Id course = i)) as [Heq|Hne].
  - rewrite (filter_cons_True _ course []) by done.
    rewrite filter_nil, last_snoc. subst i. apply lookup_insert_eq.
  - rewrite (filter_cons_False _ course []) by done.
    rewrite filter_nil, app_nil_r, lookup_insert_ne by done. exact IH.
Qed.

(** X1.  For any clock, the projected classes are, in the order of the final
    grades, one record for every final grade whose reporting term is allowed:
    its id is the section id, its grade the grade as given, and its name the
    title of the last section with that id, or the empty string when no
    section has it. *)
Theorem projected_classes_spec (clock : nat → Z) (student : Student) :
  let allowed := allowedTerms (term_window clock (ReportingTerms student)) in
  projected_classes clock student =
    map (class_of (idMap (Sections student)))
      (filter (λ fg, is_allowed allowed (ReportingTermId fg) = true)
         (FinalGrades student))
  ∧ (∀ fg, Class_ID (class_of (idMap (Sections student)) fg) = FinalGrade_Sectionid fg
           ∧ Class_Grade (class_of (idMap (Sections student)) fg) = FinalGrade_Grade fg
           ∧ Class_Name (class_of (idMap (Sections student)) fg) =
               match last (filter (λ course, Section_Id course = FinalGrade_Sectionid fg)
                             (Sections student)) with
               | Some course => SchoolCourseTitle course
               | None => ""
               end)
  ∧ (length (projected_classes clock student) ≤ length (FinalGrades student))%nat.
Proof.
  intros allowed.
  assert (projected_classes clock student =
            map (class_of (idMap (Sections student)))
              (filter (graded_in allowed) (FinalGrades student))) as Hproj
    by apply newClasses_of_filter.
  split_and!.
  - exact Hproj.
  - intros fg. split_and!; [done..|].
    simpl. unfold title_of. rewrite idMap_lookup.
    by destruct (last _).
  - rewrite Hproj, length_map. apply length_filter.
Qed.

(** ** The allowed terms *)

Lemma is_allowed_insert (allowed : gmap Z bool) (i id : Z) :
  is_allowed (<[i := true]> allowed) id = true ↔ i = id ∨ is_allowed allowed id = true.
Proof.
  unfold is_allowed. destruct (decide (i = id)) as [->|Hne].
  - rewrite lookup_insert_eq. simpl. tauto.
  - rewrite lookup_insert_ne by done. split; [tauto|]. by intros [?|?].
Qed.

Lemma is_allowed_fold (terms : list ReportingTerm) (allowed : gmap Z bool) (id : Z) :
  is_allowed (foldl (λ m t, <[ReportingTerm_Id t := true]> m) allowed terms) id = true ↔
    is_allowed allowed id = true ∨ ∃ t, t ∈ terms ∧ ReportingTerm_Id t = id.
Proof.
  revert allowed. induction terms as [|t terms IH]; intros allowed.
  - simpl. split; [tauto|]. intros [?|(t & Ht & _)]; [done|by inversion Ht].
  - simpl. rewrite IH, is_allowed_insert. split.
    + intros [[Hid|Hal]|(x & Hx & Hid)].
      * right. exists t. split; [apply list_elem_of_here|done].
      * by left.
      * right. exists x. split; [by apply list_elem_of_further|done].
    + intros [Hal|(x & Hx & Hid)]; [tauto|].
      apply elem_of_cons in Hx as [->|Hx]; [tauto|].
      right. by exists x.
Qed.

(** X2.  Under a clock that shows [now] at every reading, a reporting-term id
    is allowed exactly when some term with that id is a quarter term (title
    starting with Q) that [now] lies strictly inside. *)
Theorem allowed_iff_active (now : Z) (terms : list ReportingTerm) (id : Z) :
  is_allowed (allowedTerms (term_window (frozen now) terms)) id = true ↔
    ∃ t, t ∈ terms ∧ ReportingTerm_Id t = id
         ∧ StartDate t < now ∧ now < EndDate t
         ∧ String.prefix "Q" (Title t) = true.
Proof.
  destruct (term_window_frozen now terms term_init) as (_ & _ & Hallowed).
  fold (term_window (frozen now) terms) in Hallowed.
  rewrite Hallowed, is_allowed_fold. simpl. split.
  - intros [Hfalse|(t & Ht & Hid)]; [done|].
    apply list_elem_of_filter in Ht as [Hactive Ht].
    pose proof (active_bounds now t Hactive) as [? ?].
    exists t. split_and!; [done..|].
    unfold active in Hactive. by apply andb_prop in Hactive as [_ ?].
  - intros (t & Ht & Hid & Hs & He & Hq). right. exists t. split; [|done].
    apply list_elem_of_filter. split; [|done].
    unfold active. by rewrite !bool_decide_eq_true_2, Hq by done.
Qed.

Lemma term_step_invariant (clock : nat → Z) (seen : list ReportingTerm)
    (st : TermState) (t : ReportingTerm) :
  term_invariant seen st → term_invariant (seen ++ [t]) (term_step clock st t).
Proof.
  intros (Hb & Hd & Hticks & Hallowed).
  assert (∀ st' : TermState,
            allowedTerms st' = allowedTerms st →
            termBeginDate st' = termBeginDate st →
            termDueDate st' = termDueDate st →
            (ticks st' = S (ticks st) ∨ ticks st' = S (S (ticks st))) →
            term_invariant (seen ++ [t]) st') as Hsame.
  { intros st' Ha Hb' Hd' Ht. unfold term_invariant.
    rewrite Ha, Hb', Hd', length_app. simpl. split_and!; [done|done|lia|lia|].
    intros id Hid. destruct (Hallowed id Hid) as (x & Hx & Hrest).
    exists x. split; [|done]. apply elem_of_app. by left. }
  unfold term_step.
  case_bool_decide as Hstart; [|apply Hsame; simpl; auto].
  case_bool_decide as Hend; [|apply Hsame; simpl; auto].
  destruct (String.prefix "Q" (Title t)) eqn:Hq; [|apply Hsame; simpl; auto].
  unfold term_invariant. simpl. rewrite length_app. simpl.
  split_and!; [case_bool_decide; lia|case_bool_decide; lia|lia|lia|].
  intros id [<-|Hid]%is_allowed_insert.
  - exists t. split_and!; [apply elem_of_app; right; apply list_elem_of_here|done..| |];
      case_bool_decide; lia.
  - destruct (Hallowed id Hid) as (x & Hx & Hxid & Hxq & Hxb & Hxd).
    exists x. split_and!; [apply elem_of_app; by left|done..| |];
      case_bool_decide; lia.
Qed.

Lemma term_window_snoc (clock : nat → Z) (terms : list ReportingTerm) (t : ReportingTerm) :
  term_window clock (terms ++ [t]) = term_step clock (term_window clock terms) t.
Proof. unfold term_window. by rewrite foldl_app. Qed.

Lemma term_window_keeps_invariant (clock : nat → Z) (terms : list ReportingTerm) :
  term_invariant terms (term_window clock terms).
Proof.
  induction terms as [|t terms IH] using rev_ind.
  - unfold term_invariant. simpl. split_and!; [done|done|lia|lia|].
    intros id Hid. done.
  - rewrite term_window_snoc. by apply term_step_invariant.
Qed.

(** X3.  Whatever the clock shows at its readings, the loop over the terms
    reads it at least once and at most twice for each term; the lower bound
    of the window is never later than the first day of 2100 and the upper
    bound never earlier than the first day of 2000; and every allowed id is
    the id of a term whose title starts with Q and which the window covers. *)
Theorem term_window_any_clock (clock : nat → Z) (terms : list ReportingTerm) :
  let st := term_window clock terms in
  termBeginDate st ≤ date_2100_01_01
  ∧ date_2000_01_01 ≤ termDueDate st
  ∧ (length terms ≤ ticks st ≤ 2 * length terms)%nat
  ∧ ∀ id, is_allowed (allowedTerms st) id = true →
      ∃ t, t ∈ terms ∧ ReportingTerm_Id t = id
           ∧ String.prefix "Q" (Title t) = true
           ∧ termBeginDate st ≤ StartDate t ∧ EndDate t ≤ termDueDate st.
Proof. apply term_window_keeps_invariant. Qed.

(** X4.  Under a clock that shows [now] at every reading, the window is a
    proper interval exactly when some term is active, and then [now] lies
    strictly inside it. *)
Theorem window_proper_iff_active (now : Z) (terms : list ReportingTerm) :
  let st := term_window (frozen now) terms in
  (termBeginDate st < termDueDate st ↔ active_terms now terms ≠ [])
  ∧ (active_terms now terms ≠ [] → termBeginDate st < now < termDueDate st).
Proof.
  intros st.
  destruct (term_window_frozen now terms term_init) as (Hb & Hd & _).
  fold (term_window (frozen now) terms) in Hb, Hd. fold st in Hb, Hd.
  simpl in Hb, Hd.
  assert (active_terms now terms ≠ [] → termBeginDate st < now < termDueDate st)
    as Hinside.
  { destruct (active_terms now terms) as [|t rest] eqn:Hactive; [done|]. intros _.
    assert (t ∈ active_terms now terms) as Ht by (rewrite Hactive; apply list_elem_of_here).
    apply list_elem_of_filter in Ht as [Ht _]. apply active_bounds in Ht.
    pose proof (minimum_lower date_2100_01_01 (map StartDate (t :: rest)) (StartDate t))
      as Hlow.
    pose proof (maximum_upper date_2000_01_01 (map EndDate (t :: rest)) (EndDate t))
      as Hup.
    rewrite <- Hb in Hlow. rewrite <- Hd in Hup.
    specialize (Hlow (list_elem_of_further _ _ _ (list_elem_of_here _ _))).
    specialize (Hup (list_elem_of_further _ _ _ (list_elem_of_here _ _))).
    lia. }
  split; [|done]. split.
  - intros Hlt Hnone. rewrite Hnone in Hb, Hd. simpl in Hb, Hd.
    rewrite Hb, Hd in Hlt. revert Hlt. by_evaluation.
  - intros Hsome. specialize (Hinside Hsome). lia.
Qed.

Lemma window_proper_iff_active_witness :
  active_terms day_2024_02_01 [term_Q1; term_S1] ≠ []
  ∧ termBeginDate (term_window (frozen day_2024_02_01) [term_Q1; term_S1])
      < day_2024_02_01
      < termDueDate (term_window (frozen day_2024_02_01) [term_Q1; term_S1]).
Proof.
  assert (active_terms day_2024_02_01 [term_Q1; term_S1] ≠ []) as Hsome by by_evaluation.
  split; [done|].
  by apply (window_proper_iff_active day_2024_02_01 [term_Q1; term_S1]).
Defined.

(** ** Additions *)

Lemma assignment_scan_added (new : list Assignment) (m : gmap Z Assignment) (n : Assignment) :
  n ∈ new → m !! Assignment_ID n = None → added_of n ∈ assignment_scan m new.
Proof.
  revert m. induction new as [|x new IH]; intros m Hn Hm; [by inversion Hn|].
  rewrite assignment_scan_cons. apply elem_of_app.
  apply elem_of_cons in Hn as [->|Hn].
  - left. unfold assignment_event. rewrite Hm. apply list_elem_of_here.
  - right. apply IH; [done|]. apply lookup_delete_None. by right.
Qed.

Lemma class_events_added (old new : list Class) (c : Class) :
  c ∈ new → Class_ID c ∉ map Class_ID old → class_added_of c ∈ class_events old new.
Proof.
  intros Hc Hold. unfold class_events.
  apply list_elem_of_In, in_flat_map. exists c. split; [by apply list_elem_of_In|].
  apply list_elem_of_In. unfold class_event.
  rewrite oldGrades_lookup, last_class_None by done. apply list_elem_of_here.
Qed.

Lemma class_changes_member (old new : list Class) (e : Event) (s : string) :
  e ∈ class_events old new → class_msg e = Some s → s ∈ compareGrades_changes old new.
Proof.
  intros He Hs.
  assert (Some s ∈ Some <$> compareGrades_changes old new) as Hin.
  { rewrite compareGrades_changes_events, <- Hs. by apply list_elem_of_fmap_2. }
  apply list_elem_of_fmap in Hin as (s' & [= ->] & Hin). done.
Qed.

(** X5.  A new record whose id no old record has is reported as added, with
    its name, (for an assignment) its class name, and its grade, whether or
    not ids repeat in either collection. *)
Theorem new_id_reported_added (ord : MapOrder) (old new : list Assignment) (n : Assignment)
    (oldc newc : list Class) (c : Class) :
  n ∈ new →
  Assignment_ID n ∉ map Assignment_ID old →
  c ∈ newc →
  Class_ID c ∉ map Class_ID oldc →
  msg_assignment_added (Assignment_Name n) (Assignment_ClassName n) (Assignment_Grade n)
    ∈ compareAssignments_changes ord old new
  ∧ msg_class_added (Class_Name c) (Class_Grade c) ∈ compareGrades_changes oldc newc.
Proof.
  intros Hn Hold Hc Holdc. split.
  - rewrite compareAssignments_changes_events.
    apply (list_elem_of_fmap_2' assignment_msg _ (added_of n)); [|done].
    unfold assignment_events. apply elem_of_app. left.
    apply assignment_scan_added; [done|].
    by rewrite oldAssignmentMap_lookup, last_assignment_None.
  - apply (class_changes_member oldc newc (class_added_of c)); [|done].
    by apply class_events_added.
Qed.

Lemma new_id_reported_added_witness :
  "New assignment added: 'HW3' in class Art with grade 70%"
    ∈ compareAssignments_changes order_forward [hw1; hw1] [hw1; hw3; hw3]
  ∧ "New class added: Art with grade C" ∈ compareGrades_changes [math_B] [art_C; art_C].
Proof.
  assert (hw3 ∈ [hw1; hw3; hw3]) as H1 by by_evaluation.
  assert (Assignment_ID hw3 ∉ map Assignment_ID [hw1; hw1]) as H2 by by_evaluation.
  assert (art_C ∈ [art_C; art_C]) as H3 by by_evaluation.
  assert (Class_ID art_C ∉ map Class_ID [math_B]) as H4 by by_evaluation.
  exact (new_id_reported_added order_forward [hw1; hw1] [hw1; hw3; hw3] hw3
           [math_B] [art_C; art_C] art_C H1 H2 H3 H4).
Defined.

(** ** Repeated ids in the new collection *)

Lemma assignment_scan_repeat (new : list Assignment) (m : gmap Z Assignment) :
  ¬ NoDup (map Assignment_ID new) →
  ∃ n, n ∈ new ∧ added_of n ∈ assignment_scan m new.
Proof.
  revert m. induction new as [|x new IH]; intros m Hdup.
  - exfalso. apply Hdup. constructor.
  - simpl in Hdup. rewrite assignment_scan_cons.
    destruct (decide (Assignment_ID x ∈ map Assignment_ID new)) as [Hin|Hout].
    + apply list_elem_of_fmap in Hin as (r & Hid & Hr).
      exists r. split; [by apply list_elem_of_further|].
      apply elem_of_app. right. apply assignment_scan_added; [done|].
      rewrite <- Hid. apply lookup_delete_eq.
    + destruct (IH (delete (Assignment_ID x) m)) as (n & Hn & Hadded).
      { intros Hnd. apply Hdup. by apply NoDup_cons. }
      exists n. split; [by apply list_elem_of_further|].
      apply elem_of_app. by right.
Qed.

(** X6.  When two new assignments share an id, the assignment diff reports a
    change whatever the old collection is: a later record with a repeated id
    is always reported as added. *)
Theorem repeated_new_id_reported (ord : MapOrder) (old new : list Assignment) :
  ¬ NoDup (map Assignment_ID new) →
  compareAssignments_changes ord old new ≠ []
  ∧ ∃ n, n ∈ new
         ∧ msg_assignment_added (Assignment_Name n) (Assignment_ClassName n)
             (Assignment_Grade n) ∈ compareAssignments_changes ord old new.
Proof.
  intros Hdup.
  destruct (assignment_scan_repeat new (oldAssignmentMap old) Hdup) as (n & Hn & Hadded).
  assert (msg_assignment_added (Assignment_Name n) (Assignment_ClassName n)
            (Assignment_Grade n) ∈ compareAssignments_changes ord old new) as Hin.
  { rewrite compareAssignments_changes_events.
    apply (list_elem_of_fmap_2' assignment_msg _ (added_of n)); [|done].
    unfold assignment_events. apply elem_of_app. by left. }
  split; [|by exists n].
  intros Hnil. rewrite Hnil in Hin. by inversion Hin.
Qed.

Lemma repeated_new_id_reported_witness :
  ¬ NoDup (map Assignment_ID [hw1; hw1])
  ∧ compareAssignments_changes order_forward [hw1] [hw1; hw1] ≠ [].
Proof.
  assert (¬ NoDup (map Assignment_ID [hw1; hw1])) as Hdup by by_evaluation.
  split; [done|].
  by destruct (repeated_new_id_reported order_forward [hw1] [hw1; hw1] Hdup).
Defined.

(** ** A collection against itself *)

Lemma NoDup_map_inj {A : Type} (f : A → Z) (l : list A) (x y : A) :
  NoDup (map f l) → x ∈ l → y ∈ l → f x = f y → x = y.
Proof.
  induction l as [|a l IH]; intros Hnd Hx Hy Hf; [by inversion Hx|].
  simpl in Hnd. apply NoDup_cons in Hnd as [Ha Hnd].
  apply elem_of_cons in Hx as [->|Hx]; apply elem_of_cons in Hy as [->|Hy].
  - done.
  - exfalso. apply Ha. rewrite Hf. by apply (list_elem_of_fmap_2 f).
  - exfalso. apply Ha. rewrite <- Hf. by apply (list_elem_of_fmap_2 f).
  - by apply IH.
Qed.

Lemma flat_map_nil {A B : Type} (f : A → list B) (l : list A) :
  (∀ x, x ∈ l → f x = []) → flat_map f l = [].
Proof.
  induction l as [|a l IH]; intros Hf; [done|].
  simpl. rewrite Hf by apply list_elem_of_here.
  apply IH. intros x Hx. by apply Hf, list_elem_of_further.
Qed.

Lemma assignment_removals_empty (ord : MapOrder) : assignment_removals ord ∅ = [].
Proof.
  apply length_zero_iff_nil. by rewrite assignment_removals_length, map_size_empty.
Qed.

Lemma self_assignment_events (ord : MapOrder) (l : list Assignment) :
  NoDup (map Assignment_ID l) → assignment_events ord l l = [].
Proof.
  intros Hnd. unfold assignment_events.
  rewrite assignment_scan_NoDup by done.
  rewrite flat_map_nil.
  - assert (remaining (oldAssignmentMap l) l = ∅) as ->; [|apply assignment_removals_empty].
    apply map_eq. intros i. rewrite remaining_lookup, lookup_empty.
    case_decide as Hi; [done|].
    by rewrite oldAssignmentMap_lookup, last_assignment_None.
  - intros n Hn. unfold assignment_event. rewrite oldAssignmentMap_lookup.
    destruct (last_assignment_is_Some l (Assignment_ID n)) as [o Ho];
      [by apply (list_elem_of_fmap_2 Assignment_ID)|].
    rewrite Ho. apply last_assignment_id in Ho as [Hid Ho].
    rewrite (NoDup_map_inj Assignment_ID l o n Hnd Ho Hn Hid).
    by rewrite bool_decide_eq_false_2 by (intros H; by apply H).
Qed.

Lemma last_class_is_Some (old : list Class) (i : Z) :
  i ∈ map Class_ID old → is_Some (last_class i old).
Proof.
  intros Hin. destruct (last_class i old) eqn:E; [eauto|].
  exfalso. apply list_elem_of_fmap in Hin as (c & -> & Hc).
  apply last_None in E. by apply (filter_nil_not_elem_of _ _ c E).
Qed.

Lemma self_class_events (l : list Class) :
  NoDup (map Class_ID l) → class_events l l = [].
Proof.
  intros Hnd. unfold class_events. apply flat_map_nil.
  intros c Hc. unfold class_event. rewrite oldGrades_lookup.
  destruct (last_class_is_Some l (Class_ID c)) as [o Ho];
    [by apply (list_elem_of_fmap_2 Class_ID)|].
  rewrite Ho. apply last_class_id in Ho as [Hid Ho]. simpl.
  rewrite (NoDup_map_inj Class_ID l o c Hnd Ho Hc Hid).
  by rewrite bool_decide_eq_false_2 by (intros H; by apply H).
Qed.

Lemma self_compareAssignments (ord : MapOrder) (l : list Assignment) :
  NoDup (map Assignment_ID l) → compareAssignments_changes ord l l = [].
Proof.
  intros Hnd. by rewrite compareAssignments_changes_events, self_assignment_events.
Qed.

Lemma self_compareGrades (l : list Class) :
  NoDup (map Class_ID l) → compareGrades_changes l l = [].
Proof.
  intros Hnd. apply (fmap_nil_inv Some).
  by rewrite compareGrades_changes_events, self_class_events.
Qed.

Lemma flat_map_nil_inv {A B : Type} (f : A → list B) (l : list A) (x : A) :
  flat_map f l = [] → x ∈ l → f x = [].
Proof.
  induction l as [|a l IH]; intros Hnil Hx; [by inversion Hx|].
  simpl in Hnil. apply app_eq_nil in Hnil as [Ha Hl].
  apply elem_of_cons in Hx as [->|Hx]; [done|by apply IH].
Qed.

Lemma class_event_nil (l : list Class) (c : Class) :
  c ∈ l →
  (class_event (oldGrades l) c = [] ↔
     ∃ o, last_class (Class_ID c) l = Some o ∧ Class_Grade o = Class_Grade c).
Proof.
  intros Hc. unfold class_event. rewrite oldGrades_lookup.
  destruct (last_class_is_Some l (Class_ID c)) as [o Ho];
    [by apply (list_elem_of_fmap_2 Class_ID)|].
  rewrite Ho. simpl. case_bool_decide as Hg; split; try done.
  - intros (o' & [= <-] & Heq). done.
  - intros _. by exists o.
Qed.

(** X7.  Comparing an assignment collection with itself gives no change
    exactly when its ids are distinct.  Comparing a class collection with
    itself gives no change exactly when records with the same id have the
    same grade; names play no part. *)
Theorem self_diff_quiet (ord : MapOrder) (l : list Assignment) (lc : list Class) :
  (compareAssignments_changes ord l l = [] ↔ NoDup (map Assignment_ID l))
  ∧ (compareGrades_changes lc lc = [] ↔
       ∀ c1 c2, c1 ∈ lc → c2 ∈ lc → Class_ID c1 = Class_ID c2 →
                Class_Grade c1 = Class_Grade c2).
Proof.
  split; split.
  - intros Hnil. destruct (decide (NoDup (map Assignment_ID l))) as [|Hdup]; [done|].
    destruct (assignment_scan_repeat l (oldAssignmentMap l) Hdup) as (n & _ & Hadded).
    exfalso.
    assert (assignment_msg (added_of n) ∈ compareAssignments_changes ord l l) as Hin.
    { rewrite compareAssignments_changes_events. apply list_elem_of_fmap_2.
      unfold assignment_events. apply elem_of_app. by left. }
    rewrite Hnil in Hin. by inversion Hin.
  - apply self_compareAssignments.
  - intros Hnil.
    assert (class_events lc lc = []) as Hev.
    { apply (fmap_nil_inv class_msg).
      by rewrite <- compareGrades_changes_events, Hnil. }
    assert (∀ c, c ∈ lc → ∃ o, last_class (Class_ID c) lc = Some o
                               ∧ Class_Grade o = Class_Grade c) as Hlast.
    { intros c Hc. apply class_event_nil; [done|].
      by apply (flat_map_nil_inv _ lc c Hev). }
    intros c1 c2 H1 H2 Hid.
    destruct (Hlast c1 H1) as (o1 & Ho1 & <-).
    destruct (Hlast c2 H2) as (o2 & Ho2 & <-).
    rewrite Hid in Ho1. congruence.
  - intros Hsame. apply (fmap_nil_inv Some).
    rewrite compareGrades_changes_events.
    assert (class_events lc lc = []) as ->; [|done].
    apply flat_map_nil. intros c Hc. apply class_event_nil; [done|].
    destruct (last_class_is_Some lc (Class_ID c)) as [o Ho];
      [by apply (list_elem_of_fmap_2 Class_ID)|].
    exists o. split; [done|].
    apply last_class_id in Ho as [Hid Ho]. by apply Hsame.
Qed.

(** ** Ids of the projected collections *)

(** X8.  The ids of the projected assignments are ids of raw assignments, in
    the same order, so they are distinct when the raw ids are, and likewise
    their class ids are section ids of raw assignments.  The ids of the
    projected classes are, in order, the section ids of the final grades of
    allowed terms, so a section graded in two allowed terms appears twice. *)
Theorem projected_ids (clock : nat → Z) (student : Student) :
  let allowed := allowedTerms (term_window clock (ReportingTerms student)) in
  map Assignment_ID (projected_assignments clock student)
    `sublist_of` map RawAssignment_Id (Assignments student)
  ∧ (NoDup (map RawAssignment_Id (Assignments student)) →
     NoDup (map Assignment_ID (projected_assignments clock student)))
  ∧ map Class_ID (projected_classes clock student) =
      map FinalGrade_Sectionid
        (filter (λ fg, is_allowed allowed (ReportingTermId fg) = true) (FinalGrades student))
  ∧ map Assignment_ClassID (projected_assignments clock student)
      `sublist_of` map RawAssignment_Sectionid (Assignments student).
Proof.
  intros allowed.
  set (st := term_window clock (ReportingTerms student)).
  set (scoreMap := assignmentScoreMap (AssignmentScores student)).
  set (classes := projected_classes clock student).
  set (kept := filter (projectable (termBeginDate st) (termDueDate st) scoreMap)
                 (Assignments student)).
  assert (projected_assignments clock student =
            map (project_assignment scoreMap classes) kept) as Hproj
    by apply newAssignments_of_filter.
  assert (map Assignment_ID (projected_assignments clock student)
            `sublist_of` map RawAssignment_Id (Assignments student)) as Hsub.
  { rewrite Hproj, map_map. simpl.
    apply (fmap_sublist RawAssignment_Id), sublist_filter. }
  split_and!.
  - exact Hsub.
  - intros Hnd. by eapply sublist_NoDup.
  - unfold classes, projected_classes. rewrite newClasses_of_filter, map_map. done.
  - rewrite Hproj, map_map. simpl.
    apply (fmap_sublist RawAssignment_Sectionid), sublist_filter.
Qed.

Lemma projected_ids_witness :
  NoDup (map RawAssignment_Id (Assignments sample_student))
  ∧ NoDup (map Assignment_ID (projected_assignments (frozen day_2024_02_01) sample_student)).
Proof.
  assert (NoDup (map RawAssignment_Id (Assignments sample_student))) as Hnd by by_evaluation.
  split; [done|].
  by apply (projected_ids (frozen day_2024_02_01) sample_student).
Defined.

(** ** One cycle, step by step *)

Lemma fetchAndCompare_fetched (w : World) (disk : Disk) (student : Student) :
  GetStudent w = Ok student →
  let oldClasses := (loadBackupDataClasses (backup_classes disk)).1 in
  let oldAssignments := (loadBackupDataAssignments (backup_assignments disk)).1 in
  let newClasses := projected_classes (clock_of w) student in
  let newAssignments := projected_assignments (clock_of w) student in
  fetchAndCompare w disk =
    (mkDisk (saveBackupDataClasses (write_classes w) newClasses).1
       (saveBackupDataAssignments (write_assignments w) newAssignments).1,
     ([LogInfo "Starting data fetch and comparison..."]
      ++ warn_if (loadBackupDataClasses (backup_classes disk)).2
           "Could not load old classes, possibly first run."
      ++ warn_if (loadBackupDataAssignments (backup_assignments disk)).2
           "Could not load old assignments, possibly first run.")
     ++ (compareGradesAndNotifyChanges (http_Post w) oldClasses newClasses
         ++ compareAssignmentsAndNotifyChanges (map_order w) (http_Post w)
              oldAssignments newAssignments)
     ++ [WriteFile backupClassesFile]
     ++ error_if (saveBackupDataClasses (write_classes w) newClasses).2
          "Failed to backup new classes data: "
     ++ [WriteFile backupAssignmentsFile]
     ++ error_if (saveBackupDataAssignments (write_assignments w) newAssignments).2
          "Failed to backup new assignments data: "
     ++ [LogInfo "Data fetch and comparison completed."]).
Proof.
  intros Hfetch. simpl. unfold fetchAndCompare. rewrite Hfetch.
  destruct (loadBackupDataClasses _) as [oldClasses err1].
  destruct (loadBackupDataAssignments _) as [oldAssignments err2].
  destruct (saveBackupDataClasses _ _) as [file1 werr1].
  by destruct (saveBackupDataAssignments _ _) as [file2 werr2].
Qed.

Lemma fetchAndCompare_failed (w : World) (disk : Disk) (err : string) :
  GetStudent w = Err err →
  fetchAndCompare w disk =
    (disk,
     ([LogInfo "Starting data fetch and comparison..."]
      ++ warn_if (loadBackupDataClasses (backup_classes disk)).2
           "Could not load old classes, possibly first run."
      ++ warn_if (loadBackupDataAssignments (backup_assignments disk)).2
           "Could not load old assignments, possibly first run.")
     ++ [LogError ("Failed to get student data: " +:+ err)]).
Proof.
  intros Hfetch. unfold fetchAndCompare. rewrite Hfetch.
  destruct (loadBackupDataClasses _) as [oldClasses err1].
  by destruct (loadBackupDataAssignments _) as [oldAssignments err2].
Qed.

Lemma notify_or_log_no_write (http_Post : WebhookMessage → option string)
    (nothing : string) (changes : list string) :
  filter is_write (notify_or_log http_Post nothing changes) = [].
Proof.
  unfold notify_or_log, sendDiscordNotification.
  case_bool_decide; [|done]. case_bool_decide; [done|].
  by destruct (http_Post _).
Qed.

Lemma error_if_no_write (err : option string) (msg : string) :
  filter is_write (error_if err msg) = [].
Proof. by destruct err. Qed.

Lemma fetchAndCompare_posts (w : World) (disk : Disk) (student : Student) :
  GetStudent w = Ok student →
  filter is_post (fetchAndCompare w disk).2 =
    message_for
      (compareGrades_changes (loadBackupDataClasses (backup_classes disk)).1
         (projected_classes (clock_of w) student))
    ++ message_for
         (compareAssignments_changes (map_order w)
            (loadBackupDataAssignments (backup_assignments disk)).1
            (projected_assignments (clock_of w) student)).
Proof.
  intros Hfetch. rewrite (fetchAndCompare_fetched w disk student Hfetch).
  cbn [snd]. rewrite !filter_app.
  rewrite !(proj1 (warn_if_quiet _ _)), !error_if_quiet.
  unfold compareGradesAndNotifyChanges, compareAssignmentsAndNotifyChanges.
  rewrite !notify_or_log_posts
    by (apply compareGrades_changes_nonempty || apply compareAssignments_changes_nonempty).
  simpl. by rewrite !app_nil_r.
Qed.

Lemma fetchAndCompare_writes (w : World) (disk : Disk) (student : Student) :
  GetStudent w = Ok student →
  filter is_write (fetchAndCompare w disk).2 =
    [WriteFile backupClassesFile; WriteFile backupAssignmentsFile].
Proof.
  intros Hfetch. rewrite (fetchAndCompare_fetched w disk student Hfetch).
  cbn [snd]. rewrite !filter_app.
  rewrite !(proj2 (warn_if_quiet _ _)), !error_if_no_write.
  unfold compareGradesAndNotifyChanges, compareAssignmentsAndNotifyChanges.
  by rewrite !notify_or_log_no_write.
Qed.

Lemma fetchAndCompare_failed_quiet (w : World) (disk : Disk) :
  offline w →
  (fetchAndCompare w disk).1 = disk
  ∧ filter is_post (fetchAndCompare w disk).2 = []
  ∧ filter is_write (fetchAndCompare w disk).2 = [].
Proof.
  intros [err Hfetch]. rewrite (fetchAndCompare_failed w disk err Hfetch).
  cbn [fst snd]. rewrite !filter_app.
  rewrite !(proj1 (warn_if_quiet _ _)), !(proj2 (warn_if_quiet _ _)). done.
Qed.

(** ** Empty collections *)

Lemma compareAssignments_empty_old (ord : MapOrder) (new : list Assignment) :
  compareAssignments_changes ord [] new = map added_text new.
Proof.
  rewrite compareAssignments_changes_events. unfold assignment_events.
  destruct (assignment_scan_disjoint new (oldAssignmentMap [])) as [-> ->]; [done|].
  change (oldAssignmentMap []) with (∅ : gmap Z Assignment).
  by rewrite assignment_removals_empty, app_nil_r, map_map.
Qed.

Lemma compareGrades_empty_old (new : list Class) :
  compareGrades_changes [] new = map class_added_text new.
Proof.
  assert (Some <$> compareGrades_changes [] new = Some <$> map class_added_text new) as H.
  { rewrite compareGrades_changes_events, class_events_disjoint.
    - by rewrite <- !list_fmap_compose.
    - intros i _ Hi. by inversion Hi. }
  revert H. generalize (compareGrades_changes [] new) (map class_added_text new).
  intros l1. induction l1 as [|x l1 IH]; intros [|y l2] H; try done.
  simpl in H. injection H as -> H. f_equal. by apply IH.
Qed.

Lemma compareAssignments_empty_new (ord : MapOrder) (old : list Assignment) :
  compareAssignments_changes ord old [] =
    map (λ entry, removed_text entry.2) (range_map ord (oldAssignmentMap old)).
Proof.
  rewrite compareAssignments_changes_events. unfold assignment_events, assignment_removals.
  simpl. by rewrite map_map.
Qed.

Lemma compareGrades_empty_new (old : list Class) : compareGrades_changes old [] = [].
Proof. done. Qed.

(** X9.  First run.  When neither backup file can be read, a cycle that
    fetches the student record warns about both files and reports every
    projected class and every projected assignment as added, classes in one
    message and assignments in another. *)
Theorem first_run_all_added (w : World) (disk : Disk) (student : Student)
    (err1 err2 : string) :
  backup_classes disk = Err err1 →
  backup_assignments disk = Err err2 →
  GetStudent w = Ok student →
  filter is_post (fetchAndCompare w disk).2 =
    message_for (map class_added_text (projected_classes (clock_of w) student))
    ++ message_for (map added_text (projected_assignments (clock_of w) student))
  ∧ LogWarning "Could not load old classes, possibly first run."
      ∈ (fetchAndCompare w disk).2
  ∧ LogWarning "Could not load old assignments, possibly first run."
      ∈ (fetchAndCompare w disk).2.
Proof.
  intros Hc Ha Hfetch. split_and!.
  - rewrite (fetchAndCompare_posts w disk student Hfetch), Hc, Ha. simpl.
    by rewrite compareGrades_empty_old, compareAssignments_empty_old.
  - rewrite (fetchAndCompare_fetched w disk student Hfetch), Hc, Ha. simpl.
    apply list_elem_of_further, list_elem_of_here.
  - rewrite (fetchAndCompare_fetched w disk student Hfetch), Hc, Ha. simpl.
    do 2 apply list_elem_of_further. apply list_elem_of_here.
Qed.

Lemma first_run_all_added_witness :
  filter is_post
    (fetchAndCompare sample_world (mkDisk (Err "no such file") (Err "no such file"))).2 =
    [HttpPost discordWebhookURL {| Content := "New class added: Math with grade B" |};
     HttpPost discordWebhookURL
       {| Content := "New assignment added: 'HW1' in class Math with grade 90%" |}].
Proof.
  assert (backup_classes (mkDisk (Err "no such file") (Err "no such file"))
            = Err "no such file") as H1 by reflexivity.
  assert (backup_assignments (mkDisk (Err "no such file") (Err "no such file"))
            = Err "no such file") as H2 by reflexivity.
  assert (GetStudent sample_world = Ok sample_student) as H3 by reflexivity.
  destruct (first_run_all_added sample_world _ sample_student _ _ H1 H2 H3) as (Hposts & _).
  rewrite Hposts. by_evaluation.
Defined.

(** ** A cycle outside every quarter *)

Lemma newClasses_of_none (ids : gmap Z string) (finalGrades : list FinalGrade) :
  newClasses_of ∅ ids finalGrades = [].
Proof.
  rewrite newClasses_of_filter, filter_none; [done|].
  intros fg _. unfold graded_in, is_allowed. by rewrite lookup_empty.
Qed.

Lemma projection_without_active_term (now : Z) (student : Student) :
  active_terms now (ReportingTerms student) = [] →
  projected_classes (frozen now) student = []
  ∧ projected_assignments (frozen now) student = [].
Proof.
  intros Hnone.
  destruct (term_window_frozen now (ReportingTerms student) term_init) as (Hb & Hd & Ha).
  fold (term_window (frozen now) (ReportingTerms student)) in Hb, Hd, Ha.
  rewrite Hnone in Hb, Hd, Ha. simpl in Hb, Hd, Ha.
  assert (projected_classes (frozen now) student = []) as Hclasses.
  { unfold projected_classes. rewrite Ha. apply newClasses_of_none. }
  split; [done|].
  unfold projected_assignments, newAssignments_of.
  apply newAssignments_of_outside. intros a. unfold in_window. rewrite Hb, Hd.
  apply andb_false_iff.
  destruct (decide (DueDate a < date_2000_01_01)) as [Hlt|Hge].
  - right. apply bool_decide_eq_false.
    unfold date_2100_01_01, date_2000_01_01, nanosecond_per_second in *. lia.
  - left. by apply bool_decide_eq_false.
Qed.

(** X10.  A cycle run when no quarter term is active, with both files
    writable, replaces both snapshots by empty collections, says nothing
    about classes, and reports every id of the old assignments as removed,
    one text for each distinct id, in a single message. *)
Theorem cycle_outside_quarters (now : Z) (w : World) (disk : Disk) (student : Student) :
  sees student (frozen now) w →
  active_terms now (ReportingTerms student) = [] →
  let oldAssignments := (loadBackupDataAssignments (backup_assignments disk)).1 in
  let removed :=
    map (λ entry, removed_text entry.2)
      (range_map (map_order w) (oldAssignmentMap oldAssignments)) in
  (fetchAndCompare w disk).1 = mkDisk (Ok []) (Ok [])
  ∧ filter is_post (fetchAndCompare w disk).2 = message_for removed
  ∧ length removed = size (oldAssignmentMap oldAssignments)
  ∧ LogInfo "No changes in Classes." ∈ (fetchAndCompare w disk).2.
Proof.
  intros (Hfetch & Hclock & Hw1 & Hw2) Hnone oldAssignments removed.
  destruct (projection_without_active_term now student Hnone) as [Hpc Hpa].
  split_and!.
  - rewrite (fetchAndCompare_fetched w disk student Hfetch).
    by rewrite Hclock, Hpc, Hpa, Hw1, Hw2.
  - rewrite (fetchAndCompare_posts w disk student Hfetch), Hclock, Hpc, Hpa.
    by rewrite compareGrades_empty_new, compareAssignments_empty_new.
  - unfold removed. rewrite length_map, (Permutation_length (range_map_perm _ _)).
    apply length_map_to_list.
  - rewrite (fetchAndCompare_fetched w disk student Hfetch), Hclock, Hpc. cbn [snd].
    apply elem_of_app. right. apply elem_of_app. left. apply elem_of_app. left.
    apply list_elem_of_here.
Qed.

Lemma cycle_outside_quarters_witness :
  let student := mkStudent (Sections sample_student) [term_S1]
                   (FinalGrades sample_student) (AssignmentScores sample_student)
                   (Assignments sample_student) in
  let w := mkWorld (Ok student) (frozen day_2024_02_01) order_backward (λ _, None)
             Written Written in
  (fetchAndCompare w sample_disk).1 = mkDisk (Ok []) (Ok [])
  ∧ filter is_post (fetchAndCompare w sample_disk).2 =
      [HttpPost discordWebhookURL
         {| Content := "Assignment removed: 'HW1' from class Math" +:+ newline
                       +:+ "Assignment removed: 'HW2' from class Math" |}].
Proof.
  intros student w.
  assert (sees student (frozen day_2024_02_01) w) as Hsees by (by repeat split).
  assert (active_terms day_2024_02_01 (ReportingTerms student) = []) as Hnone
    by by_evaluation.
  destruct (cycle_outside_quarters day_2024_02_01 w sample_disk student Hsees Hnone)
    as (Hdisk & Hposts & _).
  split; [exact Hdisk|]. rewrite Hposts. by_evaluation.
Defined.

(** ** Cycles that find nothing new *)

Lemma json_class_keys (pc : list Class) :
  (∀ c, c ∈ pc → to_valid_utf8 (Class_Grade c) = Class_Grade c) →
  map class_key (map json_class pc) = map class_key pc.
Proof.
  induction pc as [|c pc IH]; intros Hsafe; [done|].
  simpl. rewrite IH by (intros x Hx; by apply Hsafe, list_elem_of_further).
  unfold class_key at 1 3. simpl. by rewrite Hsafe by apply list_elem_of_here.
Qed.

Lemma json_assignment_keys (pa : list Assignment) :
  (∀ a, a ∈ pa → to_valid_utf8 (Assignment_Grade a) = Assignment_Grade a) →
  map assignment_key (map json_assignment pa) = map assignment_key pa.
Proof.
  induction pa as [|a pa IH]; intros Hsafe; [done|].
  simpl. rewrite IH by (intros x Hx; by apply Hsafe, list_elem_of_further).
  unfold assignment_key at 1 3. simpl. by rewrite Hsafe by apply list_elem_of_here.
Qed.

Lemma assignment_key_ids (l : list Assignment) :
  map fst (map assignment_key l) = map Assignment_ID l.
Proof. by rewrite map_map. Qed.

Lemma class_key_ids (l : list Class) :
  map fst (map class_key l) = map Class_ID l.
Proof. by rewrite map_map. Qed.

(** Two collections with the same ids and grades, in the same order, the
    ids being distinct, show no change, whatever their other fields are. *)
Lemma same_keys_assignment_events (ord : MapOrder) (old new : list Assignment) :
  NoDup (map Assignment_ID new) →
  map assignment_key old = map assignment_key new →
  assignment_events ord old new = [].
Proof.
  intros Hnd Hkeys.
  assert (map Assignment_ID old = map Assignment_ID new) as Hids
    by (by rewrite <- !assignment_key_ids, Hkeys).
  unfold assignment_events. rewrite assignment_scan_NoDup by done.
  rewrite flat_map_nil.
  - assert (remaining (oldAssignmentMap old) new = ∅) as ->; [|apply assignment_removals_empty].
    apply map_eq. intros i. rewrite remaining_lookup, lookup_empty.
    case_decide as Hi; [done|].
    rewrite oldAssignmentMap_lookup. apply last_assignment_None. by rewrite Hids.
  - intros n Hn. unfold assignment_event. rewrite oldAssignmentMap_lookup.
    destruct (last_assignment_is_Some old (Assignment_ID n)) as [o Ho].
    { rewrite Hids. by apply (list_elem_of_fmap_2 Assignment_ID). }
    rewrite Ho. apply last_assignment_id in Ho as [Hid Ho].
    assert (assignment_key o ∈ map assignment_key new) as Hkey
      by (rewrite <- Hkeys; by apply (list_elem_of_fmap_2 assignment_key)).
    apply list_elem_of_fmap in Hkey as (n' & [= Hid' Hgrade] & Hn').
    assert (n' = n) as ->
      by (apply (NoDup_map_inj Assignment_ID new); [done..|congruence]).
    by rewrite bool_decide_eq_false_2 by (intros H; by apply H).
Qed.

Lemma same_keys_class_events (old new : list Class) :
  NoDup (map Class_ID new) →
  map class_key old = map class_key new →
  class_events old new = [].
Proof.
  intros Hnd Hkeys.
  assert (map Class_ID old = map Class_ID new) as Hids
    by (by rewrite <- !class_key_ids, Hkeys).
  unfold class_events. apply flat_map_nil.
  intros c Hc. unfold class_event. rewrite oldGrades_lookup.
  destruct (last_class_is_Some old (Class_ID c)) as [o Ho].
  { rewrite Hids. by apply (list_elem_of_fmap_2 Class_ID). }
  rewrite Ho. apply last_class_id in Ho as [Hid Ho]. simpl.
  assert (class_key o ∈ map class_key new) as Hkey
    by (rewrite <- Hkeys; by apply (list_elem_of_fmap_2 class_key)).
  apply list_elem_of_fmap in Hkey as (c' & [= Hid' Hgrade] & Hc').
  assert (c' = c) as ->
    by (apply (NoDup_map_inj Class_ID new); [done..|congruence]).
  by rewrite bool_decide_eq_false_2 by (intros H; by apply H).
Qed.

Lemma same_keys_compareAssignments (ord : MapOrder) (old new : list Assignment) :
  NoDup (map Assignment_ID new) →
  map assignment_key old = map assignment_key new →
  compareAssignments_changes ord old new = [].
Proof.
  intros Hnd Hkeys.
  by rewrite compareAssignments_changes_events, same_keys_assignment_events.
Qed.

Lemma same_keys_compareGrades (old new : list Class) :
  NoDup (map Class_ID new) →
  map class_key old = map class_key new →
  compareGrades_changes old new = [].
Proof.
  intros Hnd Hkeys. apply (fmap_nil_inv Some).
  by rewrite compareGrades_changes_events, same_keys_class_events.
Qed.

Lemma fetchAndCompare_written (w : World) (disk : Disk)
    (pc : list Class) (pa : list Assignment) :
  projects pc pa w →
  (fetchAndCompare w disk).1 =
    mkDisk (Ok (map json_class pc)) (Ok (map json_assignment pa)).
Proof.
  intros ((student & Hfetch & Hpc & Hpa) & Hw1 & Hw2).
  rewrite (fetchAndCompare_fetched w disk student Hfetch).
  by rewrite Hpc, Hpa, Hw1, Hw2.
Qed.

Lemma fetchAndCompare_quiet (w : World) (pc : list Class) (pa : list Assignment) :
  projects pc pa w →
  NoDup (map Class_ID pc) →
  NoDup (map Assignment_ID pa) →
  (∀ c, c ∈ pc → to_valid_utf8 (Class_Grade c) = Class_Grade c) →
  (∀ a, a ∈ pa → to_valid_utf8 (Assignment_Grade a) = Assignment_Grade a) →
  fetchAndCompare w (mkDisk (Ok (map json_class pc)) (Ok (map json_assignment pa))) =
    (mkDisk (Ok (map json_class pc)) (Ok (map json_assignment pa)), quiet_cycle).
Proof.
  intros ((student & Hfetch & Hpc & Hpa) & Hw1 & Hw2) Hndc Hnda Hsafec Hsafea.
  rewrite (fetchAndCompare_fetched w _ student Hfetch).
  rewrite Hpc, Hpa, Hw1, Hw2. simpl.
  unfold compareGradesAndNotifyChanges, compareAssignmentsAndNotifyChanges.
  rewrite same_keys_compareGrades by (done || by apply json_class_keys).
  by rewrite same_keys_compareAssignments by (done || by apply json_assignment_keys).
Qed.

(** X11.  Two cycles in a row.  Take a cycle that fetched a student record
    and wrote both files, and a following cycle, with its own clock and fetch,
    that projects the same two collections.  When the projected ids are
    distinct and the projected grades are valid UTF-8 (so that they come back
    from the files as they were written), the second cycle finds nothing to
    report: it logs that neither kind has changes, posts nothing, and writes
    the same snapshots again. *)
Theorem second_cycle_quiet (w1 w2 : World) (disk : Disk)
    (pc : list Class) (pa : list Assignment) :
  projects pc pa w1 →
  projects pc pa w2 →
  NoDup (map Class_ID pc) →
  NoDup (map Assignment_ID pa) →
  (∀ c, c ∈ pc → to_valid_utf8 (Class_Grade c) = Class_Grade c) →
  (∀ a, a ∈ pa → to_valid_utf8 (Assignment_Grade a) = Assignment_Grade a) →
  fetchAndCompare w2 (fetchAndCompare w1 disk).1 =
    ((fetchAndCompare w1 disk).1, quiet_cycle).
Proof.
  intros H1 H2 Hndc Hnda Hsafec Hsafea.
  rewrite (fetchAndCompare_written w1 disk pc pa H1).
  by apply fetchAndCompare_quiet.
Qed.

Lemma second_cycle_quiet_witness :
  fetchAndCompare later_world (fetchAndCompare sample_world sample_disk).1 =
    (mkDisk (Ok [mkClass 10 "Math" "B"]) (Ok [mkAssignment 1 "HW1" "90%" 10 "Math"]),
     quiet_cycle).
Proof.
  pose (pc := [mkClass 10 "Math" "B"]).
  pose (pa := [mkAssignment 1 "HW1" "90%" 10 "Math"]).
  assert (projects pc pa sample_world) as H1.
  { split; [exists sample_student|by split]. split_and!; [done|by_evaluation..]. }
  assert (projects pc pa later_world) as H2.
  { split; [exists sample_student|by split]. split_and!; [done|by_evaluation..]. }
  assert (NoDup (map Class_ID pc)) as Hndc by by_evaluation.
  assert (NoDup (map Assignment_ID pa)) as Hnda by by_evaluation.
  assert (∀ c, c ∈ pc → to_valid_utf8 (Class_Grade c) = Class_Grade c) as Hsafec.
  { intros c ->%list_elem_of_singleton. by_evaluation. }
  assert (∀ a, a ∈ pa → to_valid_utf8 (Assignment_Grade a) = Assignment_Grade a) as Hsafea.
  { intros a ->%list_elem_of_singleton. by_evaluation. }
  rewrite (second_cycle_quiet sample_world later_world sample_disk pc pa
             H1 H2 Hndc Hnda Hsafec Hsafea).
  vm_compute. reflexivity.
Defined.

(** X17.  A grade that is not valid UTF-8 does not come back from the file as
    it was projected.  When two cycles in a row project the same classes
    with distinct ids, the second reports every class with such a grade as
    changed, from the stored grade with its invalid bytes replaced to the
    grade as projected, and so posts a message. *)
Theorem invalid_grade_reported_again (w1 w2 : World) (disk : Disk)
    (pc : list Class) (pa : list Assignment) (c : Class) :
  projects pc pa w1 →
  projects pc pa w2 →
  NoDup (map Class_ID pc) →
  c ∈ pc →
  to_valid_utf8 (Class_Grade c) ≠ Class_Grade c →
  msg_class_changed (Class_Name c) (to_valid_utf8 (Class_Grade c)) (Class_Grade c)
    ∈ compareGrades_changes (map json_class pc) pc
  ∧ ∃ rest, filter is_post (fetchAndCompare w2 (fetchAndCompare w1 disk).1).2 =
      HttpPost discordWebhookURL
        {| Content := String.concat newline (compareGrades_changes (map json_class pc) pc) |}
      :: rest.
Proof.
  intros H1 H2 Hnd Hc Hgrade.
  assert (msg_class_changed (Class_Name c) (to_valid_utf8 (Class_Grade c)) (Class_Grade c)
            ∈ compareGrades_changes (map json_class pc) pc) as Hin.
  { apply (class_changes_member _ _ (class_changed_of (to_valid_utf8 (Class_Grade c)) c));
      [|done].
    unfold class_events. apply list_elem_of_In, in_flat_map.
    exists c. split; [by apply list_elem_of_In|]. apply list_elem_of_In.
    unfold class_event. rewrite oldGrades_lookup.
    destruct (last_class_is_Some (map json_class pc) (Class_ID c)) as [o Ho].
    { rewrite map_map. simpl. by apply (list_elem_of_fmap_2 Class_ID). }
    rewrite Ho. apply last_class_id in Ho as [Hid Ho]. simpl.
    apply list_elem_of_fmap in Ho as (c' & -> & Hc'). simpl in Hid.
    rewrite (NoDup_map_inj Class_ID pc c' c Hnd Hc' Hc Hid). simpl.
    rewrite bool_decide_eq_true_2 by done. apply list_elem_of_here. }
  split; [exact Hin|].
  rewrite (fetchAndCompare_written w1 disk pc pa H1).
  destruct H2 as ((student & Hfetch & Hpc & Hpa) & _).
  rewrite (fetchAndCompare_posts w2 _ student Hfetch), Hpc, Hpa. simpl.
  destruct (compareGrades_changes (map json_class pc) pc) as [|s l] eqn:E;
    [by inversion Hin|].
  simpl. eauto.
Qed.

Lemma invalid_grade_reported_again_witness :
  let c := mkClass 10 "Math" (String "255" EmptyString) in
  to_valid_utf8 (Class_Grade c) = replacement_character
  ∧ msg_class_changed "Math" replacement_character (String "255" EmptyString)
      ∈ compareGrades_changes (map json_class [c]) [c]
  ∧ filter is_post
      (fetchAndCompare broken_world (fetchAndCompare broken_world sample_disk).1).2
    = [HttpPost discordWebhookURL
         {| Content := msg_class_changed "Math" replacement_character
                         (String "255" EmptyString) |}].
Proof.
  intros c.
  assert (projects [c] [] broken_world) as H1.
  { split; [exists broken_student|by split]. split_and!; [done|by_evaluation..]. }
  assert (NoDup (map Class_ID [c])) as Hnd by by_evaluation.
  assert (c ∈ [c]) as Hc by apply list_elem_of_here.
  assert (to_valid_utf8 (Class_Grade c) ≠ Class_Grade c) as Hgrade by by_evaluation.
  destruct (invalid_grade_reported_again broken_world broken_world sample_disk
              [c] [] c H1 H1 Hnd Hc Hgrade) as (Hin & rest & Hposts).
  split_and!; [by_evaluation | exact Hin | vm_compute; reflexivity].
Defined.

(** ** The driver *)

Lemma main_cycles_cons (w : World) (rest : list World) (disk : Disk) :
  main_cycles (w :: rest) disk =
    ((main_cycles rest (fetchAndCompare w disk).1).1,
     (fetchAndCompare w disk).2 ++ (main_cycles rest (fetchAndCompare w disk).1).2).
Proof.
  simpl. destruct (fetchAndCompare w disk) as [disk1 actions1]. simpl.
  by destruct (main_cycles rest disk1).
Qed.

Lemma main_cycles_app (ws1 ws2 : list World) (disk : Disk) :
  main_cycles (ws1 ++ ws2) disk =
    ((main_cycles ws2 (main_cycles ws1 disk).1).1,
     (main_cycles ws1 disk).2 ++ (main_cycles ws2 (main_cycles ws1 disk).1).2).
Proof.
  revert disk. induction ws1 as [|w ws1 IH]; intros disk.
  - simpl. by destruct (main_cycles ws2 disk).
  - rewrite <- app_comm_cons, !main_cycles_cons, IH. cbn [fst snd].
    by rewrite app_assoc.
Qed.

Lemma main_cycles_offline (ws : list World) (disk : Disk) :
  Forall offline ws →
  (main_cycles ws disk).1 = disk
  ∧ filter is_post (main_cycles ws disk).2 = []
  ∧ filter is_write (main_cycles ws disk).2 = [].
Proof.
  induction 1 as [|w ws Hw _ IH]; [done|].
  rewrite main_cycles_cons. cbn [fst snd].
  destruct (fetchAndCompare_failed_quiet w disk Hw) as (-> & Hp & Hwr).
  destruct IH as (-> & IHp & IHwr).
  by rewrite !filter_app, Hp, Hwr, IHp, IHwr.
Qed.

(** X12.  An outage.  While every fetch fails, however many cycles run, the
    backup files are not touched and nothing is posted or written; the cycles
    that follow the outage end with the same files, the same posts and the
    same writes as if the failed cycles had not run. *)
Theorem outage_leaves_no_trace (outage ws : list World) (disk : Disk) :
  Forall offline outage →
  (main_cycles outage disk).1 = disk
  ∧ filter is_post (main_cycles outage disk).2 = []
  ∧ filter is_write (main_cycles outage disk).2 = []
  ∧ (main_cycles (outage ++ ws) disk).1 = (main_cycles ws disk).1
  ∧ filter is_post (main_cycles (outage ++ ws) disk).2 =
      filter is_post (main_cycles ws disk).2
  ∧ filter is_write (main_cycles (outage ++ ws) disk).2 =
      filter is_write (main_cycles ws disk).2.
Proof.
  intros Hout.
  destruct (main_cycles_offline outage disk Hout) as (Hdisk & Hp & Hw).
  rewrite main_cycles_app. cbn [fst snd].
  by rewrite !filter_app, Hdisk, Hp, Hw.
Qed.

Lemma outage_leaves_no_trace_witness :
  Forall offline [offline_world; offline_world]
  ∧ filter is_post (main_cycles [offline_world; offline_world; sample_world] sample_disk).2 =
      filter is_post (main_cycles [sample_world] sample_disk).2.
Proof.
  assert (Forall offline [offline_world; offline_world]) as Hout.
  { repeat constructor; by exists "connection refused". }
  split; [done|].
  by destruct (outage_leaves_no_trace [offline_world; offline_world] [sample_world]
                 sample_disk Hout) as (_ & _ & _ & _ & Hposts & _).
Defined.

Lemma main_cycles_quiet (ws : list World) (pc : list Class) (pa : list Assignment) :
  Forall (projects pc pa) ws →
  NoDup (map Class_ID pc) →
  NoDup (map Assignment_ID pa) →
  (∀ c, c ∈ pc → to_valid_utf8 (Class_Grade c) = Class_Grade c) →
  (∀ a, a ∈ pa → to_valid_utf8 (Assignment_Grade a) = Assignment_Grade a) →
  main_cycles ws (mkDisk (Ok (map json_class pc)) (Ok (map json_assignment pa))) =
    (mkDisk (Ok (map json_class pc)) (Ok (map json_assignment pa)),
     concat (replicate (length ws) quiet_cycle)).
Proof.
  intros Hws Hndc Hnda Hsafec Hsafea. induction Hws as [|w ws Hw _ IH]; [done|].
  rewrite main_cycles_cons.
  rewrite (fetchAndCompare_quiet w pc pa Hw Hndc Hnda Hsafec Hsafea).
  cbn [fst snd]. by rewrite IH.
Qed.

(** X13.  A steady run.  Take a run of the driver in which every cycle, with
    its own clock and fetch, projects the same two collections and can write
    both files.  When the projected ids are distinct and the projected grades
    are valid UTF-8, only the first cycle can post: every later cycle is a
    quiet one, and the files hold the projected collections as JSON gives
    them back. *)
Theorem steady_run_posts_once (w : World) (ws : list World) (disk : Disk)
    (pc : list Class) (pa : list Assignment) :
  Forall (projects pc pa) (w :: ws) →
  NoDup (map Class_ID pc) →
  NoDup (map Assignment_ID pa) →
  (∀ c, c ∈ pc → to_valid_utf8 (Class_Grade c) = Class_Grade c) →
  (∀ a, a ∈ pa → to_valid_utf8 (Assignment_Grade a) = Assignment_Grade a) →
  main_cycles (w :: ws) disk =
    (mkDisk (Ok (map json_class pc)) (Ok (map json_assignment pa)),
     (fetchAndCompare w disk).2 ++ concat (replicate (length ws) quiet_cycle))
  ∧ filter is_post (main_cycles (w :: ws) disk).2 = filter is_post (fetchAndCompare w disk).2.
Proof.
  intros Hall Hndc Hnda Hsafec Hsafea. apply Forall_cons in Hall as [Hw Hws].
  assert (main_cycles (w :: ws) disk =
            (mkDisk (Ok (map json_class pc)) (Ok (map json_assignment pa)),
             (fetchAndCompare w disk).2 ++ concat (replicate (length ws) quiet_cycle)))
    as Hrun.
  { rewrite main_cycles_cons, (fetchAndCompare_written w disk pc pa Hw).
    by rewrite (main_cycles_quiet ws pc pa Hws Hndc Hnda Hsafec Hsafea). }
  split; [exact Hrun|].
  rewrite Hrun. cbn [snd]. rewrite filter_app.
  assert (∀ k, filter is_post (concat (replicate k quiet_cycle)) = []) as Hquiet.
  { induction k as [|k IH]; [done|].
    change (replicate (S k) quiet_cycle) with (quiet_cycle :: replicate k quiet_cycle).
    rewrite concat_cons, filter_app, IH. reflexivity. }
  by rewrite Hquiet, app_nil_r.
Qed.

Lemma steady_run_posts_once_witness :
  filter is_post (main_cycles [sample_world; later_world; sample_world] sample_disk).2 =
    filter is_post (fetchAndCompare sample_world sample_disk).2.
Proof.
  pose (pc := [mkClass 10 "Math" "B"]).
  pose (pa := [mkAssignment 1 "HW1" "90%" 10 "Math"]).
  assert (projects pc pa sample_world) as H1.
  { split; [exists sample_student|by split]. split_and!; [done|by_evaluation..]. }
  assert (projects pc pa later_world) as H2.
  { split; [exists sample_student|by split]. split_and!; [done|by_evaluation..]. }
  assert (Forall (projects pc pa) [sample_world; later_world; sample_world]) as Hall
    by (repeat (apply List.Forall_cons; [done|]); apply List.Forall_nil).
  assert (NoDup (map Class_ID pc)) as Hndc by by_evaluation.
  assert (NoDup (map Assignment_ID pa)) as Hnda by by_evaluation.
  assert (∀ c, c ∈ pc → to_valid_utf8 (Class_Grade c) = Class_Grade c) as Hsafec.
  { intros c ->%list_elem_of_singleton. by_evaluation. }
  assert (∀ a, a ∈ pa → to_valid_utf8 (Assignment_Grade a) = Assignment_Grade a) as Hsafea.
  { intros a ->%list_elem_of_singleton. by_evaluation. }
  by destruct (steady_run_posts_once sample_world [later_world; sample_world] sample_disk
                 pc pa Hall Hndc Hnda Hsafec Hsafea) as [_ Hposts].
Defined.

(** ** Size of a report *)

Lemma oldAssignmentMap_size (old : list Assignment) :
  (size (oldAssignmentMap old) ≤ length old)%nat.
Proof.
  induction old as [|a old IH] using rev_ind; [done|].
  rewrite oldAssignmentMap_snoc, map_size_insert, length_app. simpl.
  destruct (oldAssignmentMap old !! Assignment_ID a); simpl; lia.
Qed.

Lemma remaining_size (m : gmap Z Assignment) (new : list Assignment) :
  (size (remaining m new) ≤ size m)%nat.
Proof.
  apply map_subseteq_size, map_subseteq_spec. intros i x.
  rewrite remaining_lookup. by case_decide.
Qed.

(** X14.  The assignment diff produces at most one text for each new record
    and one for each distinct old id, hence at most as many texts as there
    are old and new records together; the class diff produces at most one
    text for each new class. *)
Theorem changes_bounded (ord : MapOrder) (old new : list Assignment)
    (oldc newc : list Class) :
  (length (compareAssignments_changes ord old new)
     ≤ length new + size (oldAssignmentMap old))%nat
  ∧ (length (compareAssignments_changes ord old new) ≤ length new + length old)%nat
  ∧ (length (compareGrades_changes oldc newc) ≤ length newc)%nat.
Proof.
  assert (length (compareAssignments_changes ord old new)
            ≤ length new + size (oldAssignmentMap old))%nat as Hbound.
  { rewrite compareAssignments_changes_events, length_map.
    unfold assignment_events. rewrite length_app, assignment_removals_length.
    pose proof (sublist_length _ _ (assignment_scan_sublist new (oldAssignmentMap old)))
      as Hscan.
    rewrite !length_map in Hscan.
    pose proof (remaining_size (oldAssignmentMap old) new). lia. }
  split_and!.
  - exact Hbound.
  - pose proof (oldAssignmentMap_size old). lia.
  - rewrite <- (length_fmap Some), compareGrades_changes_events, length_fmap.
    pose proof (sublist_length _ _ (class_events_sublist oldc newc)) as Hev.
    by rewrite !length_map in Hev.
Qed.

(** ** Shape of the posts *)

Lemma message_for_shape (changes : list string) (a : Action) :
  (∀ s, s ∈ changes → s ≠ "") →
  a ∈ message_for changes →
  ∃ content, a = HttpPost discordWebhookURL {| Content := content |} ∧ content ≠ "".
Proof.
  intros Hne Ha. destruct changes as [|s changes]; [by inversion Ha|].
  apply list_elem_of_singleton in Ha as ->.
  eexists. split; [done|]. apply concat_nonempty, Hne, list_elem_of_here.
Qed.

Lemma message_for_length (changes : list string) :
  (length (message_for changes) ≤ 1)%nat.
Proof. destruct changes; simpl; lia. Qed.

(** X15.  In any cycle, whether the fetch succeeds or not, at most two
    messages are posted, every one of them to the webhook address and none
    with an empty content. *)
Theorem posts_well_formed (w : World) (disk : Disk) :
  (length (filter is_post (fetchAndCompare w disk).2) ≤ 2)%nat
  ∧ ∀ a, a ∈ (fetchAndCompare w disk).2 → is_post a = true →
      ∃ content, a = HttpPost discordWebhookURL {| Content := content |} ∧ content ≠ "".
Proof.
  assert (∀ a, a ∈ (fetchAndCompare w disk).2 → is_post a = true →
            a ∈ filter is_post (fetchAndCompare w disk).2) as Hfilter.
  { intros a Ha Hp. apply list_elem_of_filter. split; [by rewrite Hp|done]. }
  destruct (GetStudent w) as [student|err] eqn:Hfetch.
  - pose proof (fetchAndCompare_posts w disk student Hfetch) as Hposts.
    split.
    + rewrite Hposts, length_app.
      pose proof (message_for_length
        (compareGrades_changes (loadBackupDataClasses (backup_classes disk)).1
           (projected_classes (clock_of w) student))).
      pose proof (message_for_length
        (compareAssignments_changes (map_order w)
           (loadBackupDataAssignments (backup_assignments disk)).1
           (projected_assignments (clock_of w) student))).
      lia.
    + intros a Ha Hp. specialize (Hfilter a Ha Hp). rewrite Hposts in Hfilter.
      apply elem_of_app in Hfilter as [Hin|Hin];
        (eapply message_for_shape; [|exact Hin]).
      * apply compareGrades_changes_nonempty.
      * apply compareAssignments_changes_nonempty.
  - destruct (fetchAndCompare_failed_quiet w disk) as (_ & Hposts & _);
      [by exists err|].
    split; [rewrite Hposts; simpl; lia|].
    intros a Ha Hp. specialize (Hfilter a Ha Hp). rewrite Hposts in Hfilter.
    by inversion Hfilter.
Qed.

(** ** The saving step *)

(** X16.  In a cycle that fetched the student record, each backup file is
    written once, classes first, whatever the notifier answered and whether
    or not the first write failed.  A file whose write succeeds holds the
    projected records with their strings coerced to valid UTF-8, the ids as
    they were.  A failed write of the classes file is logged with its error
    and does not keep the assignments file from being written.  The files
    after the cycle do not depend on the answers of the notifier. *)
Theorem saving_step (w : World) (disk : Disk) (student : Student)
    (post : WebhookMessage → option string) :
  GetStudent w = Ok student →
  filter is_write (fetchAndCompare w disk).2 =
    [WriteFile backupClassesFile; WriteFile backupAssignmentsFile]
  ∧ (write_classes w = Written →
     ∃ stored, backup_classes (fetchAndCompare w disk).1 = Ok stored
       ∧ stored = map json_class (projected_classes (clock_of w) student)
       ∧ map Class_ID stored = map Class_ID (projected_classes (clock_of w) student))
  ∧ (write_assignments w = Written →
     ∃ stored, backup_assignments (fetchAndCompare w disk).1 = Ok stored
       ∧ stored = map json_assignment (projected_assignments (clock_of w) student)
       ∧ map Assignment_ID stored =
           map Assignment_ID (projected_assignments (clock_of w) student))
  ∧ (∀ err residue, write_classes w = WriteFailed err residue →
       backup_classes (fetchAndCompare w disk).1 = residue
       ∧ LogError ("Failed to backup new classes data: " +:+ err)
           ∈ (fetchAndCompare w disk).2)
  ∧ (fetchAndCompare
       (mkWorld (GetStudent w) (clock_of w) (map_order w) post
          (write_classes w) (write_assignments w)) disk).1
    = (fetchAndCompare w disk).1.
Proof.
  intros Hfetch. split_and!.
  - by apply fetchAndCompare_writes with student.
  - intros Hw. rewrite (fetchAndCompare_fetched w disk student Hfetch). rewrite Hw.
    eexists. split_and!; [done..|]. by rewrite map_map.
  - intros Hw. rewrite (fetchAndCompare_fetched w disk student Hfetch). rewrite Hw.
    eexists. split_and!; [done..|]. by rewrite map_map.
  - intros err residue Hw. rewrite (fetchAndCompare_fetched w disk student Hfetch).
    rewrite Hw. cbn [fst snd backup_classes saveBackupDataClasses error_if].
    split; [done|].
    apply elem_of_app. right. apply elem_of_app. right.
    apply list_elem_of_further, list_elem_of_here.
  - destruct w as [fetched clock ord post0 wc wa]. simpl in *. subst fetched.
    unfold fetchAndCompare. simpl.
    destruct (loadBackupDataClasses _) as [oldClasses err1].
    destruct (loadBackupDataAssignments _) as [oldAssignments err2].
    destruct (saveBackupDataClasses _ _) as [file1 werr1].
    by destruct (saveBackupDataAssignments _ _) as [file2 werr2].
Qed.

Lemma saving_step_witness :
  let w := mkWorld (Ok sample_student) (frozen day_2024_02_01) order_forward
             (λ _, Some "503 Service Unavailable")
             (WriteFailed "disk full" (Err "unexpected end of JSON input")) Written in
  fetchAndCompare w sample_disk =
    (mkDisk (Err "unexpected end of JSON input")
       (Ok [mkAssignment 1 "HW1" "90%" 10 "Math"]),
     [LogInfo "Starting data fetch and comparison...";
      LogWarning "Could not load old classes, possibly first run.";
      HttpPost discordWebhookURL {| Content := "New class added: Math with grade B" |};
      LogError "Error sending webhook: 503 Service Unavailable";
      HttpPost discordWebhookURL
        {| Content := "Assignment removed: 'HW2' from class Math" |};
      LogError "Error sending webhook: 503 Service Unavailable";
      WriteFile backupClassesFile;
      LogError "Failed to backup new classes data: disk full";
      WriteFile backupAssignmentsFile;
      LogInfo "Data fetch and comparison completed."])
  ∧ filter is_write (fetchAndCompare w sample_disk).2 =
      [WriteFile backupClassesFile; WriteFile backupAssignmentsFile].
Proof.
  intros w.
  assert (GetStudent w = Ok sample_student) as Hfetch by reflexivity.
  split; [vm_compute; reflexivity|].
  by destruct (saving_step w sample_disk sample_student (λ _, None) Hfetch) as (Hwrites & _).
Defined.

(** ** Strings through a backup file *)

Lemma lead_byte_size (b : Z) (size : nat) (range : Z * Z) :
  lead_byte b = Some (size, range) → size = 2%nat ∨ size = 3%nat ∨ size = 4%nat.
Proof.
  unfold lead_byte. repeat case_bool_decide; intros [= <- <-]; auto.
Qed.

Lemma valid_utf8_fixed (s : string) : valid_utf8 s → to_valid_utf8 s = s.
Proof.
  induction 1 as [|b0 s Hb _ IH|b0 b1 s lo hi Hb Hlead H1 _ IH
                  |b0 b1 b2 s lo hi Hb Hlead H1 H2 _ IH
                  |b0 b1 b2 b3 s lo hi Hb Hlead H1 H2 H3 _ IH].
  - done.
  - simpl. by rewrite bool_decide_eq_true_2, IH by done.
  - simpl. rewrite bool_decide_eq_false_2 by lia.
    rewrite Hlead, H1. by rewrite IH.
  - simpl. rewrite bool_decide_eq_false_2 by lia.
    rewrite Hlead, H1, H2. by rewrite IH.
  - simpl. rewrite bool_decide_eq_false_2 by lia.
    rewrite Hlead, H1, H2, H3. by rewrite IH.
Qed.

Lemma valid_utf8_replacement (s : string) :
  valid_utf8 s → valid_utf8 (replacement_character +:+ s).
Proof.
  intros Hs. apply (valid_three _ _ _ _ 128 191); [by_evaluation..|done].
Qed.

Lemma to_valid_utf8_valid_upto (n : nat) (s : string) :
  (String.length s ≤ n)%nat → valid_utf8 (to_valid_utf8 s).
Proof.
  revert s. induction n as [|n IH]; intros s Hlen.
  { destruct s; [constructor|simpl in Hlen; lia]. }
  destruct s as [|b0 s1]; [constructor|]. simpl in Hlen.
  assert (valid_utf8 (replacement_character +:+ to_valid_utf8 s1)) as Hinvalid
    by (apply valid_utf8_replacement, IH; lia).
  cbn [to_valid_utf8]. case_bool_decide as Hb.
  { apply valid_one; [done|]. apply IH. lia. }
  destruct (lead_byte (byte_value b0)) as [[size [lo hi]]|] eqn:Hlead; [|done].
  destruct s1 as [|b1 s2]; [done|]. simpl in Hlen.
  destruct (between lo hi b1) eqn:H1; [|done].
  destruct (lead_byte_size _ _ _ Hlead) as [->|[->| ->]].
  - apply (valid_two _ _ _ lo hi); [lia|done..|]. apply IH. lia.
  - destruct s2 as [|b2 s3]; [done|]. simpl in Hlen.
    destruct (between 128 191 b2) eqn:H2; [|done].
    apply (valid_three _ _ _ _ lo hi); [lia|done..|]. apply IH. lia.
  - destruct s2 as [|b2 s3]; [done|]. simpl in Hlen.
    destruct (between 128 191 b2) eqn:H2; [|done].
    destruct s3 as [|b3 s4]; [done|]. simpl in Hlen.
    destruct (between 128 191 b3) eqn:H3; [|done].
    apply (valid_four _ _ _ _ _ lo hi); [lia|done..|]. apply IH. lia.
Qed.

Lemma to_valid_utf8_valid (s : string) : valid_utf8 (to_valid_utf8 s).
Proof. by apply (to_valid_utf8_valid_upto (String.length s)). Qed.

Lemma ascii_valid_utf8 (s : string) :
  (∀ b, b ∈ String.list_ascii_of_string s → byte_value b < 128) → valid_utf8 s.
Proof.
  induction s as [|b s IH]; intros Hs; [constructor|].
  apply valid_one.
  - apply Hs. simpl. apply list_elem_of_here.
  - apply IH. intros x Hx. apply Hs. simpl. by apply list_elem_of_further.
Qed.

Lemma json_class_fixed (c : Class) : json_class (json_class c) = json_class c.
Proof.
  unfold json_class. simpl.
  by rewrite !(valid_utf8_fixed _ (to_valid_utf8_valid _)).
Qed.

Lemma json_assignment_fixed (a : Assignment) :
  json_assignment (json_assignment a) = json_assignment a.
Proof.
  unfold json_assignment. simpl.
  by rewrite !(valid_utf8_fixed _ (to_valid_utf8_valid _)).
Qed.

(** X19.  What a backup file gives back.  A string made of well-formed UTF-8
    encodings, in particular any string of bytes below 0x80, is stored as it
    is.  Any string is stored as a well-formed one, so storing what was read
    back changes nothing more: saving the collections a cycle has loaded
    leaves the files as they are, and an empty string stays empty while a
    non-empty one stays non-empty. *)
Theorem backup_round_trip (s : string) (classes : list Class)
    (assignments : list Assignment) :
  (valid_utf8 s → to_valid_utf8 s = s)
  ∧ ((∀ b, b ∈ String.list_ascii_of_string s → byte_value b < 128) →
     to_valid_utf8 s = s)
  ∧ valid_utf8 (to_valid_utf8 s)
  ∧ to_valid_utf8 (to_valid_utf8 s) = to_valid_utf8 s
  ∧ (to_valid_utf8 s = "" ↔ s = "")
  ∧ (saveBackupDataClasses Written (map json_class classes)).1 =
      (saveBackupDataClasses Written classes).1
  ∧ (saveBackupDataAssignments Written (map json_assignment assignments)).1 =
      (saveBackupDataAssignments Written assignments).1.
Proof.
  split_and!.
  - apply valid_utf8_fixed.
  - intros Hs. by apply valid_utf8_fixed, ascii_valid_utf8.
  - apply to_valid_utf8_valid.
  - apply valid_utf8_fixed, to_valid_utf8_valid.
  - split; [|by intros ->].
    destruct s as [|b0 s1]; [done|]. intros Hnil. exfalso. revert Hnil.
    cbn [to_valid_utf8]. case_bool_decide; [done|].
    destruct (lead_byte _) as [[size [lo hi]]|]; [|done].
    destruct s1 as [|b1 s2]; [done|]. destruct (between lo hi b1); [|done].
    destruct size as [|[|[|[|size]]]]; try done;
      destruct s2 as [|b2 s3]; try done;
      destruct (between 128 191 b2); try done;
      destruct s3 as [|b3 s4]; try done;
      destruct (between 128 191 b3); done.
  - simpl. f_equal. rewrite map_map. apply map_ext. intros c. apply json_class_fixed.
  - simpl. f_equal. rewrite map_map. apply map_ext. intros a. apply json_assignment_fixed.
Qed.
